(** * Biomass time series: outlier filter, smoother and cycle sequencer

    A shallow embedding of the numeric core of
    [Análise_Bioma/5 TimeSeries_NDVI.py] ([main], lines 60-124).

    - A pandas float64 column is a [list float] over the kernel's binary64
      floats, so that [NaN] behaves as it does in pandas: it is what
      [diff], [shift] and [rolling] put where no value exists, and every
      comparison with it is [false].  The filter is given a second time
      over any floating-point format ([Precisao]), float32 and float64
      among them, for the column has the precision of the raster means;
      [rolling] always computes in float64.
    - A data frame is the list of its rows in positional order.
    - The indices returned by [find_peaks] are integers ([Z]).
    - [messagebox.showerror] followed by [return] is an error result. *)

From Stdlib Require Import List ZArith Lia Bool Arith Floats.
From Stdlib Require Import Sorting.Permutation Sorting.Sorted.
From Stdlib Require Strings.String Strings.Ascii.
From Equations Require Import Equations.
From Equations.Prop Require Import Logic.
Import ListNotations.

Set Implicit Arguments.

(** ** Columns of floats (pandas [Series] of dtype float64) *)

Module Coluna.

Open Scope float_scope.

(** [s.shift(1)]: every value moves one position down, the first position
    becomes [NaN] and the last value falls off. *)
Fixpoint shift_desde (anterior : float) (c : list float) : list float :=
  match c with
  | [] => []
  | x :: r => anterior :: shift_desde x r
  end.

Definition shift (c : list float) : list float := shift_desde nan c.

(** [s.diff()]: [NaN] at the first position, [s[k] - s[k-1]] elsewhere. *)
Fixpoint diff_desde (anterior : float) (c : list float) : list float :=
  match c with
  | [] => []
  | x :: r => (x - anterior) :: diff_desde x r
  end.

Definition diff (c : list float) : list float :=
  match c with
  | [] => []
  | x :: r => nan :: diff_desde x r
  end.

(** Element-wise operations; both operands share one index, so they have
    the same length. *)
Fixpoint zip_with {A B C : Type} (f : A -> B -> C) (a : list A) (b : list B)
  : list C :=
  match a, b with
  | x :: a', y :: b' => f x y :: zip_with f a' b'
  | _, _ => []
  end.

Definition abs (c : list float) : list float := map PrimFloat.abs c.
Definition div (a b : list float) : list float := zip_with PrimFloat.div a b.
Definition mul_escalar (a : list float) (k : float) : list float :=
  map (fun x => x * k) a.
Definition le_escalar (a : list float) (k : float) : list bool :=
  map (fun x => x <=? k) a.

(** [df[mascara]]: the rows whose mask entry is [True], in their order. *)
Fixpoint selecionar {A : Type} (mascara : list bool) (linhas : list A)
  : list A :=
  match mascara, linhas with
  | b :: m, x :: l => if b then x :: selecionar m l else selecionar m l
  | _, _ => []
  end.

(** The positions that a mask keeps. *)
Fixpoint posicoes_desde (k : nat) (mascara : list bool) : list nat :=
  match mascara with
  | [] => []
  | b :: m => if b then k :: posicoes_desde (S k) m else posicoes_desde (S k) m
  end.

Definition posicoes (mascara : list bool) : list nat := posicoes_desde 0 mascara.

End Coluna.

(** ** The data frame of the time series *)

(** One row: the date parsed from the file name (as a day number) and the
    mean NDVI of the raster. *)
Record Linha : Type := mkLinha { Data : Z; Media_NDVI : float }.

Definition DataFrame : Type := list Linha.

Definition coluna_Media_NDVI (df : DataFrame) : list float := map Media_NDVI df.

(** ** Outlier filter (lines 72-75) *)

Section Filtro.

Open Scope float_scope.

(** [df['Diff_NDVI'] = df['Media_NDVI'].diff().abs()] *)
Definition Diff_NDVI (df : DataFrame) : list float :=
  Coluna.abs (Coluna.diff (coluna_Media_NDVI df)).

(** [df['Percent_Desvio'] = (df['Diff_NDVI'] / df['Media_NDVI'].shift(1)) * 100] *)
Definition Percent_Desvio (df : DataFrame) : list float :=
  Coluna.mul_escalar
    (Coluna.div (Diff_NDVI df) (Coluna.shift (coluna_Media_NDVI df))) 100.

(** [df[df['Percent_Desvio'] <= limite]]; the two helper columns are dropped
    again, so the rows keep their two original fields. *)
Definition mascara_desvio (limite : float) (df : DataFrame) : list bool :=
  Coluna.le_escalar (Percent_Desvio df) limite.

Definition filtrar_desvios (limite : float) (df : DataFrame) : DataFrame :=
  Coluna.selecionar (mascara_desvio limite df) df.

Definition posicoes_retidas (limite : float) (df : DataFrame) : list nat :=
  Coluna.posicoes (mascara_desvio limite df).

(** The percent deviation of a value against a predecessor, as the three
    column operations compute it at one position. *)
Definition desvio_percentual (anterior atual : float) : float :=
  PrimFloat.abs (atual - anterior) / anterior * 100.

(** The mask read row by row: from the second row on, a row is kept when
    its deviation against the row before it in [df] is within the limit. *)
Fixpoint mascara_desde (limite anterior : float) (r : DataFrame) : list bool :=
  match r with
  | [] => []
  | y :: r' =>
      (desvio_percentual anterior (Media_NDVI y) <=? limite)
        :: mascara_desde limite (Media_NDVI y) r'
  end.

End Filtro.

Definition linha (d : Z) (v : float) : Linha := mkLinha d v.

(** ** The filter in the precision of the column *)

(** The [Media_NDVI] column holds what [np.nanmean] returns for each
    raster: a float32 for a float32 band, a float64 for an integer band
    divided by 10000; lines 73-75 then compute in the precision of the
    column.  A [Formato] is one such precision: its values, the operations
    the filter uses, the literal [100], and what IEEE 754 arithmetic does
    with [NaN], on which the fate of the first row rests. *)
Module Precisao.

Record Formato : Type := mkFormato {
  num : Type;
  sub : num -> num -> num;
  abs : num -> num;
  div : num -> num -> num;
  mul : num -> num -> num;
  leb : num -> num -> bool;
  nan : num;
  cem : num;
  abs_nan : abs nan = nan;
  div_nan : forall y, div nan y = nan;
  mul_nan : forall y, mul nan y = nan;
  leb_nan : forall y, leb nan y = false
}.

Arguments num : clear implicits.
Arguments sub : clear implicits.
Arguments abs : clear implicits.
Arguments div : clear implicits.
Arguments mul : clear implicits.
Arguments leb : clear implicits.
Arguments nan : clear implicits.
Arguments cem : clear implicits.

(** float64: the kernel's binary64 floats. *)
Lemma binary64_div_nan (y : float) : PrimFloat.div PrimFloat.nan y = PrimFloat.nan.
Proof. apply Prim2SF_inj. rewrite div_spec. reflexivity. Qed.

Lemma binary64_mul_nan (y : float) : PrimFloat.mul PrimFloat.nan y = PrimFloat.nan.
Proof. apply Prim2SF_inj. rewrite mul_spec. reflexivity. Qed.

Lemma binary64_leb_nan (y : float) : PrimFloat.leb PrimFloat.nan y = false.
Proof. rewrite leb_spec. reflexivity. Qed.

Definition binary64 : Formato :=
  {| num := float;
     sub := PrimFloat.sub;
     abs := PrimFloat.abs;
     div := PrimFloat.div;
     mul := PrimFloat.mul;
     leb := PrimFloat.leb;
     nan := PrimFloat.nan;
     cem := 100%float;
     abs_nan := eq_refl;
     div_nan := binary64_div_nan;
     mul_nan := binary64_mul_nan;
     leb_nan := binary64_leb_nan |}.

(** float32: the IEEE 754 operations at 24 bits of precision (exponents up
    to 128) on [spec_float], whose finite values are a sign, an integer
    mantissa and a binary exponent; a float32 is one that
    [valid_binary 24 128] accepts. *)
Definition prec32 : Z := 24.
Definition emax32 : Z := 128.

(** [100 = 13107200 * 2^-17] *)
Definition cem32 : spec_float := S754_finite false 13107200 (-17).

Definition binary32 : Formato :=
  {| num := spec_float;
     sub := SFsub prec32 emax32;
     abs := SFabs;
     div := SFdiv prec32 emax32;
     mul := SFmul prec32 emax32;
     leb := SFleb;
     nan := S754_nan;
     cem := cem32;
     abs_nan := eq_refl;
     div_nan := fun _ => eq_refl;
     mul_nan := fun _ => eq_refl;
     leb_nan := fun _ => eq_refl |}.

Section Colunas.

Variable F : Formato.

Record Linha : Type := mkLinha { Data : Z; Media_NDVI : num F }.

Definition coluna_Media_NDVI (df : list Linha) : list (num F) :=
  map Media_NDVI df.

(** [s.shift(1)] *)
Fixpoint shift_desde (anterior : num F) (c : list (num F)) : list (num F) :=
  match c with
  | [] => []
  | x :: r => anterior :: shift_desde x r
  end.

Definition shift (c : list (num F)) : list (num F) := shift_desde (nan F) c.

(** [s.diff()] *)
Fixpoint diff_desde (anterior : num F) (c : list (num F)) : list (num F) :=
  match c with
  | [] => []
  | x :: r => sub F x anterior :: diff_desde x r
  end.

Definition diff (c : list (num F)) : list (num F) :=
  match c with
  | [] => []
  | x :: r => nan F :: diff_desde x r
  end.

(** [df['Diff_NDVI'] = df['Media_NDVI'].diff().abs()] *)
Definition Diff_NDVI (df : list Linha) : list (num F) :=
  map (abs F) (diff (coluna_Media_NDVI df)).

(** [df['Percent_Desvio'] = (df['Diff_NDVI'] / df['Media_NDVI'].shift(1)) * 100] *)
Definition Percent_Desvio (df : list Linha) : list (num F) :=
  map (fun x => mul F x (cem F))
    (Coluna.zip_with (div F) (Diff_NDVI df) (shift (coluna_Media_NDVI df))).

(** [df[df['Percent_Desvio'] <= limite]] *)
Definition mascara_desvio (limite : num F) (df : list Linha) : list bool :=
  map (fun x => leb F x limite) (Percent_Desvio df).

Definition filtrar_desvios (limite : num F) (df : list Linha) : list Linha :=
  Coluna.selecionar (mascara_desvio limite df) df.

Definition posicoes_retidas (limite : num F) (df : list Linha) : list nat :=
  Coluna.posicoes (mascara_desvio limite df).

(** The percent deviation of a value against a predecessor. *)
Definition desvio_percentual (anterior atual : num F) : num F :=
  mul F (div F (abs F (sub F atual anterior)) anterior) (cem F).

Fixpoint mascara_desde (limite anterior : num F) (r : list Linha) : list bool :=
  match r with
  | [] => []
  | y :: r' =>
      leb F (desvio_percentual anterior (Media_NDVI y)) limite
        :: mascara_desde limite (Media_NDVI y) r'
  end.

End Colunas.

Arguments shift_desde {F} anterior c.
Arguments shift {F} c.
Arguments diff_desde {F} anterior c.
Arguments diff {F} c.
Arguments coluna_Media_NDVI {F} df.
Arguments Diff_NDVI {F} df.
Arguments Percent_Desvio {F} df.
Arguments mascara_desvio {F} limite df.
Arguments filtrar_desvios {F} limite df.
Arguments posicoes_retidas {F} limite df.
Arguments desvio_percentual {F} anterior atual.
Arguments mascara_desde {F} limite anterior r.

End Precisao.

(** A float64 row of the data frame above, as a row of the [binary64]
    format. *)
Definition de_float64 (l : Linha) : Precisao.Linha Precisao.binary64 :=
  Precisao.mkLinha Precisao.binary64 (Data l) (Media_NDVI l).

(** ** Ordering by date (line 65) *)

(** [df.sort_values('Data')]: ascending by date.  Rows with equal dates keep
    their relative order here, as they do in pandas on a short frame;
    pandas' default sort (quicksort) promises no particular order for
    them, and on a longer frame it may exchange them.  [tabelas_com] below
    is the run for any sort that puts the rows in date order. *)
Fixpoint inserir (x : Linha) (l : DataFrame) : DataFrame :=
  match l with
  | [] => [x]
  | y :: r => if (Data x <=? Data y)%Z then x :: l else y :: inserir x r
  end.

Fixpoint sort_values (df : DataFrame) : DataFrame :=
  match df with
  | [] => []
  | x :: r => inserir x (sort_values r)
  end.

Definition data_le (a b : Linha) : Prop := (Data a <= Data b)%Z.
Definition data_lt (a b : Linha) : Prop := (Data a < Data b)%Z.

(** ** Smoother (lines 83-84) *)

(** [s.rolling(window=W, center=True).mean()], as pandas computes it: the
    values are taken as float64 with the infinities replaced by [NaN], the
    window of each position is fixed by the centred indexer, and the mean
    is kept as a running sum from which the values that leave the window
    are taken out and to which those that enter are added, both with
    Kahan's compensation. *)

Module Rolling.

Open Scope float_scope.

(** The running quantities of [roll_mean]. *)
Record Acumulador : Type := mkAcumulador {
  nobs : Z;                          (* observations in the window *)
  sum_x : float;
  neg_ct : Z;                        (* observations with the sign bit set *)
  compensation_add : float;
  compensation_remove : float;
  num_consecutive_same_value : Z;
  prev_value : float
}.

(** [x == x]: the value is an observation, not [NaN]. *)
Definition observado (val : float) : bool := val =? val.

Definition add_mean (val : float) (a : Acumulador) : Acumulador :=
  if observado val then
    let y := val - compensation_add a in
    let t := sum_x a + y in
    mkAcumulador
      (nobs a + 1)
      t
      (if get_sign val then neg_ct a + 1 else neg_ct a)
      (t - sum_x a - y)
      (compensation_remove a)
      (if val =? prev_value a
       then num_consecutive_same_value a + 1 else 1)
      val
  else a.

Definition remove_mean (val : float) (a : Acumulador) : Acumulador :=
  if observado val then
    let y := - val - compensation_remove a in
    let t := sum_x a + y in
    mkAcumulador
      (nobs a - 1)
      t
      (if get_sign val then neg_ct a - 1 else neg_ct a)
      (compensation_add a)
      (t - sum_x a - y)
      (num_consecutive_same_value a)
      (prev_value a)
  else a.

Definition de_inteiro (n : Z) : float := PrimFloat.of_uint63 (Uint63.of_Z n).

Definition calc_mean (minp : Z) (a : Acumulador) : float :=
  if ((minp <=? nobs a) && (0 <? nobs a))%Z then
    let result := sum_x a / de_inteiro (nobs a) in
    if (nobs a <=? num_consecutive_same_value a)%Z then prev_value a
    else if (neg_ct a =? 0)%Z && (result <? 0) then 0
    else if (neg_ct a =? nobs a)%Z && (0 <? result) then 0
    else result
  else nan.

(** [values[a:b]] *)
Definition fatia (a b : nat) (values : list float) : list float :=
  firstn (b - a) (skipn a values).

Definition add_todos (vals : list float) (a : Acumulador) : Acumulador :=
  fold_left (fun acc val => add_mean val acc) vals a.

Definition remove_todos (vals : list float) (a : Acumulador) : Acumulador :=
  fold_left (fun acc val => remove_mean val acc) vals a.

(** The accumulator set up afresh on the window [values[s:e]]. *)
Definition preparar (values : list float) (s e : nat) : Acumulador :=
  add_todos (fatia s e values)
    (mkAcumulador 0 0 0 0 0 0 (nth s values nan)).

Section Janelas.

(** [window] is the window size, [values] the prepared column. *)
Variables (window : nat) (values : list float).

(** The bounds of the window of position [k] for a centred fixed window:
    it ends [(window - 1) // 2] positions after [k], spans [window]
    positions, and is clipped to the column. *)
Definition offset : nat := (window - 1) / 2.

Definition fim (k : nat) : nat := Nat.min (k + 1 + offset) (length values).

Definition inicio (k : nat) : nat :=
  Nat.min (k + 1 + offset - window) (length values).

(** The loop of [roll_mean] from position [k] on; [s_ant], [e_ant] are the
    bounds of the window before and [a] the accumulator left by it. *)
Fixpoint roll_mean_desde (minp : Z) (restantes k s_ant e_ant : nat)
  (a : Acumulador) : list float :=
  match restantes with
  | O => []
  | S r =>
      let s := inicio k in
      let e := fim k in
      let a' :=
        if (k =? 0)%nat || (e_ant <=? s)%nat
        then preparar values s e
        else add_todos (fatia e_ant e values)
               (remove_todos (fatia s_ant s values) a) in
      calc_mean minp a' :: roll_mean_desde minp r (S k) s e a'
  end.

Definition roll_mean (minp : Z) : list float :=
  roll_mean_desde minp (length values) 0 0 0
    (mkAcumulador 0 0 0 0 0 0 nan).

End Janelas.

(** The column as the window routines receive it: infinities become
    [NaN]. *)
Definition prep_values (c : list float) : list float :=
  map (fun v => if is_infinity v then nan else v) c.

End Rolling.

Section Suavizacao.

Open Scope float_scope.

Definition janela_suavizacao : nat := 9.

(** The values of the window of position [k], before clipping leaves any
    out: [c[k + 1 + offset - W : k + 1 + offset]]. *)
Definition janela_em (W : nat) (c : list float) (k : nat) : list float :=
  Rolling.fatia (Rolling.inicio W c k) (Rolling.fim W c k) c.

(** [s.rolling(window=W, center=True).mean()]; [min_periods] defaults to
    the window size. *)
Definition rolling_mean_center (W : nat) (c : list float) : list float :=
  Rolling.roll_mean W (Rolling.prep_values c) (Z.of_nat W).

End Suavizacao.

(** ** The tables of the run (lines 60-89) *)

(** The two ways [main] gives up before the tables are complete: an error
    dialog followed by [return]. *)
Inductive Erro : Type :=
| NenhumDadoValido      (* line 61: no valid data was found *)
| NenhumDadoRestante.   (* line 79: no data left after the deviation filter *)

Record Tabelas : Type := mkTabelas {
  df : DataFrame;                  (* serie_temporal_completa.csv *)
  df_filtrado : DataFrame;         (* serie_temporal_filtrada.csv *)
  NDVI_Suavizado : list float      (* its smoothed column *)
}.

Definition limite_desvio : float := 100%float.

Definition tabelas (dados : list Linha) : Erro + Tabelas :=
  match dados with
  | [] => inl NenhumDadoValido
  | _ :: _ =>
      let df := sort_values dados in
      let df_filtrado := filtrar_desvios limite_desvio df in
      match df_filtrado with
      | [] => inl NenhumDadoRestante
      | _ :: _ =>
          inr (mkTabelas df df_filtrado
                 (rolling_mean_center janela_suavizacao
                    (coluna_Media_NDVI df_filtrado)))
      end
  end.

(** The run with the sort of line 65 left open.  [sort_values('Data')]
    uses pandas' default sort, which puts the rows in date order and
    promises nothing on the place of rows with equal dates; [ordenar]
    stands for what it does to the frame.  [tabelas] is the run with
    [sort_values] above in that place. *)
Definition tabelas_com (ordenar : DataFrame -> DataFrame)
  (dados : list Linha) : Erro + Tabelas :=
  match dados with
  | [] => inl NenhumDadoValido
  | _ :: _ =>
      let df := ordenar dados in
      let df_filtrado := filtrar_desvios limite_desvio df in
      match df_filtrado with
      | [] => inl NenhumDadoRestante
      | _ :: _ =>
          inr (mkTabelas df df_filtrado
                 (rolling_mean_center janela_suavizacao
                    (coluna_Media_NDVI df_filtrado)))
      end
  end.

(** What line 65 can rely on: the rows of the input, in ascending date
    order. *)
Definition ordena_por_data (ordenar : DataFrame -> DataFrame) : Prop :=
  forall l, Permutation l (ordenar l) /\ StronglySorted data_le (ordenar l).

(** ** Cycle sequencer (lines 100-124) *)

Module Sequenciador.

(** [sequencia]: what the walk is waiting for. *)
Inductive Sequencia : Type :=
| crescimento   (* "crescimento": waiting for a peak *)
| pico.         (* "pico": waiting for a valley *)

(** The label of an emitted event. *)
Inductive Rotulo : Type :=
| corte                   (* 'corte', put on a peak *)
| crescimento_ou_corte.   (* 'crescimento_ou_corte', put on a valley *)

(** An entry of [tendencias_filtradas]: [(rotulo, indice)]. *)
Definition Tendencia : Type := (Rotulo * Z)%type.

Definition eqb_sequencia (a b : Sequencia) : bool :=
  match a, b with
  | crescimento, crescimento | pico, pico => true
  | _, _ => false
  end.

(** The variables of the loop. *)
Record Estado : Type := mkEstado {
  i : nat;                                (* cursor into [picos] *)
  j : nat;                                (* cursor into [vales] *)
  sequencia : Sequencia;
  tendencias_filtradas : list Tendencia
}.

Definition estado_inicial : Estado := mkEstado 0 0 crescimento [].

(** Reading a list can raise [IndexError]; [main] does not catch it. *)
Inductive Resultado (A : Type) : Type :=
| Ok (a : A)
| IndexError.
Arguments IndexError {A}.

Definition bind {A B : Type} (r : Resultado A) (k : A -> Resultado B)
  : Resultado B :=
  match r with
  | Ok a => k a
  | IndexError => IndexError
  end.

Notation "x <- r ;; k" := (bind r (fun x => k))
  (at level 61, r at next level, right associativity).

(** [l[k]] for a cursor [k >= 0]. *)
Definition item {A : Type} (l : list A) (k : nat) : Resultado A :=
  match nth_error l k with
  | Some a => Ok a
  | None => IndexError
  end.

(** [l[-1]] *)
Definition ultimo {A : Type} (l : list A) : Resultado A :=
  match rev l with
  | a :: _ => Ok a
  | [] => IndexError
  end.

Section Laco.

Variables picos vales : list Z.

(** [i < len(picos) and j < len(vales)] *)
Definition condicao (st : Estado) : bool :=
  (i st <? length picos)%nat && (j st <? length vales)%nat.

(** [a and b]: the operand [b] is read only when [a] holds. *)
Definition e_logico (a : bool) (b : Resultado bool) : Resultado bool :=
  if a then b else Ok false.

(** The [else] branch (lines 115-118): skip the extremum the walk is
    waiting for. *)
Definition avancar (st : Estado) : Estado :=
  if eqb_sequencia (sequencia st) crescimento
  then mkEstado (S (i st)) (j st) (sequencia st) (tendencias_filtradas st)
  else mkEstado (i st) (S (j st)) (sequencia st) (tendencias_filtradas st).

(** One iteration of the [while] body (lines 106-118). *)
Definition corpo (st : Estado) : Resultado Estado :=
  c1 <- e_logico (eqb_sequencia (sequencia st) crescimento)
          (p <- item picos (i st) ;;
           v <- item vales (j st) ;;
           Ok (p <? v)%Z) ;;
  if c1 : bool then
    p <- item picos (i st) ;;
    Ok (mkEstado (S (i st)) (j st) pico
          (tendencias_filtradas st ++ [(corte, p)]))
  else
    c2 <- e_logico (eqb_sequencia (sequencia st) pico)
            (v <- item vales (j st) ;;
             u <- ultimo (tendencias_filtradas st) ;;
             Ok (v >? snd u)%Z) ;;
    if c2 : bool then
      v <- item vales (j st) ;;
      Ok (mkEstado (i st) (S (j st)) crescimento
            (tendencias_filtradas st ++ [(crescimento_ou_corte, v)]))
    else Ok (avancar st).

(** What is left of the two sequences: it shrinks with every iteration. *)
Definition restante (st : Estado) : nat :=
  (length picos - i st) + (length vales - j st).

(** The [while] loop (line 105). *)
Equations? laco (st : Estado) : Resultado Estado by wf (restante st) lt :=
  laco st with inspect (condicao st) := {
    | exist _ true Hc with inspect (corpo st) := {
        | exist _ (Ok st') Hb := laco st';
        | exist _ IndexError _ := IndexError };
    | exist _ false _ := Ok st }.
Proof.
  (* every iteration advances one cursor that the loop condition bounds *)
  clear laco.
  unfold condicao in Hc. apply andb_prop in Hc. destruct Hc as [Hi Hj].
  apply Nat.ltb_lt in Hi. apply Nat.ltb_lt in Hj.
  unfold corpo, e_logico, bind, avancar in Hb. unfold restante.
  destruct (sequencia st); simpl in Hb;
    repeat match type of Hb with
           | context [match ?x with _ => _ end] => destruct x; try discriminate
           end;
    inversion Hb; subst; simpl; lia.
Qed.

(** The two [if]s after the loop (lines 121-124). *)
Definition remanescentes (st : Estado) : Resultado (list Tendencia) :=
  t1 <- (if (i st <? length picos)%nat && eqb_sequencia (sequencia st) crescimento
         then p <- item picos (i st) ;;
              Ok (tendencias_filtradas st ++ [(corte, p)])
         else Ok (tendencias_filtradas st)) ;;
  if (j st <? length vales)%nat && eqb_sequencia (sequencia st) pico
  then v <- item vales (j st) ;;
       Ok (t1 ++ [(crescimento_ou_corte, v)])
  else Ok t1.

(** The list [tendencias_filtradas] that the plot reads. *)
Definition tendencias : Resultado (list Tendencia) :=
  st <- laco estado_inicial ;; remanescentes st.

(** The states in which the loop condition is evaluated: the initial one
    and those that an iteration of the body leaves. *)
Inductive alcancavel : Estado -> Prop :=
| alcancavel_inicial : alcancavel estado_inicial
| alcancavel_corpo (st st' : Estado) :
    alcancavel st -> condicao st = true -> corpo st = Ok st' ->
    alcancavel st'.

End Laco.

(** Alternation of the labels of an event list. *)
Definition eqb_rotulo (a b : Rotulo) : bool :=
  match a, b with
  | corte, corte | crescimento_ou_corte, crescimento_ou_corte => true
  | _, _ => false
  end.

Definition outro (r : Rotulo) : Rotulo :=
  match r with
  | corte => crescimento_ou_corte
  | crescimento_ou_corte => corte
  end.

(** [alterna r l]: the labels [l] are [r], [outro r], [r], ... *)
Fixpoint alterna (esperado : Rotulo) (l : list Rotulo) : bool :=
  match l with
  | [] => true
  | r :: l' => eqb_rotulo r esperado && alterna (outro esperado) l'
  end.

(** The label the walk puts on its next event, and the label that a list
    of alternating labels expects after its end. *)
Definition rotulo_de (s : Sequencia) : Rotulo :=
  match s with
  | crescimento => corte
  | pico => crescimento_ou_corte
  end.

Fixpoint proximo (esperado : Rotulo) (l : list Rotulo) : Rotulo :=
  match l with
  | [] => esperado
  | _ :: l' => proximo (outro esperado) l'
  end.

Definition rotulos (t : list Tendencia) : list Rotulo := map fst t.
Definition indices (t : list Tendencia) : list Z := map snd t.

(** The invariant of the loop: the labels emitted so far alternate from
    [corte], and [sequencia] tells which label comes next. *)
Definition bem_formado (st : Estado) : Prop :=
  alterna corte (rotulos (tendencias_filtradas st)) = true /\
  proximo corte (rotulos (tendencias_filtradas st)) = rotulo_de (sequencia st).

(** Strictly increasing indices. *)
Definition crescente (l : list Z) : Prop := StronglySorted Z.lt l.

End Sequenciador.

(** * Properties *)

(** ** The outlier filter *)

Section FiltroFatos.

Open Scope float_scope.

(** No comparison with [NaN] holds. *)
Lemma nan_leb (x : float) : (nan <=? x) = false.
Proof. rewrite leb_spec. reflexivity. Qed.

Lemma mascara_desde_eq (limite : float) (r : DataFrame) (anterior : float) :
  Coluna.le_escalar
    (Coluna.mul_escalar
       (Coluna.div (Coluna.abs (Coluna.diff_desde anterior (coluna_Media_NDVI r)))
                   (Coluna.shift_desde anterior (coluna_Media_NDVI r))) 100)
    limite
  = mascara_desde limite anterior r.
Proof.
  revert anterior. induction r as [|y r IH]; intros anterior; simpl.
  - reflexivity.
  - f_equal. apply IH.
Qed.

(** The first row never passes: its deviation is [NaN]. *)
Lemma mascara_desvio_cons (limite : float) (x : Linha) (r : DataFrame) :
  mascara_desvio limite (x :: r)
  = false :: mascara_desde limite (Media_NDVI x) r.
Proof.
  unfold mascara_desvio, Percent_Desvio, Diff_NDVI, Coluna.shift. simpl.
  f_equal.
  - change (PrimFloat.abs nan / nan * 100) with nan. apply nan_leb.
  - apply mascara_desde_eq.
Qed.

Lemma nth_mascara_desde (limite : float) (r : DataFrame) (x : Linha) (k : nat) :
  nth_error (mascara_desde limite (Media_NDVI x) r) k = Some true ->
  exists atual anterior,
    nth_error (x :: r) k = Some anterior /\
    nth_error (x :: r) (S k) = Some atual /\
    (desvio_percentual (Media_NDVI anterior) (Media_NDVI atual) <=? limite) = true.
Proof.
  revert x k. induction r as [|y r IH]; intros x k H.
  - destruct k; discriminate.
  - destruct k as [|k]; simpl in H.
    + exists y, x. inversion H. repeat split; reflexivity.
    + destruct (IH y k H) as (a & b & Hb & Ha & Hle).
      exists a, b. repeat split; assumption.
Qed.

(** Positions kept by a mask. *)
Lemma In_posicoes_desde (m : list bool) (k p : nat) :
  In p (Coluna.posicoes_desde k m) <->
  (k <= p)%nat /\ nth_error m (p - k) = Some true.
Proof.
  revert k. induction m as [|b m IH]; intros k; simpl.
  - split; [tauto|]. intros [_ H]. destruct (p - k)%nat; discriminate.
  - assert (Hrec : In p (Coluna.posicoes_desde (S k) m) <->
                   (k <= p)%nat /\ nth_error (b :: m) (p - k) = Some true /\ p <> k).
    { rewrite IH. split.
      - intros [Hle H]. replace (p - k)%nat with (S (p - S k)) by lia.
        repeat split; [lia | exact H | lia].
      - intros (Hle & H & Hne). split; [lia|].
        replace (p - k)%nat with (S (p - S k)) in H by lia. exact H. }
    destruct b; simpl; rewrite Hrec.
    + split.
      * intros [<-|H]; [|tauto]. rewrite Nat.sub_diag. auto.
      * intros [Hle H]. destruct (Nat.eq_dec k p); [auto|]. right. auto.
    + split; [tauto|]. intros [Hle H]. repeat split; auto.
      intros ->. rewrite Nat.sub_diag in H. discriminate.
Qed.

Lemma posicoes_desde_crescente (m : list bool) (k : nat) :
  StronglySorted lt (Coluna.posicoes_desde k m).
Proof.
  revert k. induction m as [|b m IH]; intros k; simpl; [constructor|].
  destruct b; [|apply IH]. constructor; [apply IH|].
  apply Forall_forall. intros p Hp. apply In_posicoes_desde in Hp. lia.
Qed.

Lemma selecionar_posicoes (A : Type) (m : list bool) (l : list A) (k : nat) :
  length m = length l ->
  map Some (Coluna.selecionar m l)
  = map (fun p => nth_error l (p - k)) (Coluna.posicoes_desde k m).
Proof.
  revert l k. induction m as [|b m IH]; intros [|x l] k Hlen;
    simpl in *; try discriminate; [reflexivity|].
  injection Hlen as Hlen.
  assert (Hrec : map Some (Coluna.selecionar m l)
                 = map (fun p => nth_error (x :: l) (p - k))
                       (Coluna.posicoes_desde (S k) m)).
  { rewrite (IH l (S k) Hlen). apply map_ext_in. intros p Hp.
    apply In_posicoes_desde in Hp. destruct Hp as [Hp _].
    replace (p - k)%nat with (S (p - S k)) by lia. reflexivity. }
  destruct b; simpl; [|exact Hrec].
  rewrite Nat.sub_diag. simpl. f_equal. exact Hrec.
Qed.

Lemma mascara_desde_length (limite : float) (r : DataFrame) (anterior : float) :
  length (mascara_desde limite anterior r) = length r.
Proof. revert anterior. induction r; intros; simpl; auto. Qed.

Lemma mascara_desvio_length (limite : float) (df : DataFrame) :
  length (mascara_desvio limite df) = length df.
Proof.
  destruct df as [|x r]; [reflexivity|].
  rewrite mascara_desvio_cons. simpl. f_equal. apply mascara_desde_length.
Qed.

(** Every kept position has a predecessor in [df] and passes the test
    against it. *)
Lemma posicao_retida (limite : float) (df : DataFrame) (p : nat) :
  In p (posicoes_retidas limite df) ->
  exists k anterior atual,
    p = S k /\
    nth_error df k = Some anterior /\
    nth_error df p = Some atual /\
    (desvio_percentual (Media_NDVI anterior) (Media_NDVI atual) <=? limite) = true.
Proof.
  unfold posicoes_retidas, Coluna.posicoes. intros Hp.
  apply In_posicoes_desde in Hp. destruct Hp as [_ Hp].
  rewrite Nat.sub_0_r in Hp.
  destruct df as [|x r]; [destruct p; discriminate|].
  rewrite mascara_desvio_cons in Hp.
  destruct p as [|k]; [discriminate|]. simpl in Hp.
  destruct (nth_mascara_desde _ _ _ _ Hp) as (a & b & Hb & Ha & Hle).
  exists k, b, a. repeat split; assumption.
Qed.

(** *** In every precision *)

Section EmCadaPrecisao.

Variable F : Precisao.Formato.

Lemma precisao_mascara_desde_eq (limite : Precisao.num F)
    (r : list (Precisao.Linha F)) (anterior : Precisao.num F) :
  map (fun x => Precisao.leb F x limite)
    (map (fun x => Precisao.mul F x (Precisao.cem F))
       (Coluna.zip_with (Precisao.div F)
          (map (Precisao.abs F)
             (Precisao.diff_desde anterior (Precisao.coluna_Media_NDVI r)))
          (Precisao.shift_desde anterior (Precisao.coluna_Media_NDVI r))))
  = Precisao.mascara_desde limite anterior r.
Proof.
  revert anterior. induction r as [|y r IH]; intros anterior; simpl.
  - reflexivity.
  - f_equal. apply IH.
Qed.

(** The first row never passes, in any precision: its deviation is
    [NaN]. *)
Lemma precisao_mascara_desvio_cons (limite : Precisao.num F)
    (x : Precisao.Linha F) (r : list (Precisao.Linha F)) :
  Precisao.mascara_desvio limite (x :: r)
  = false :: Precisao.mascara_desde limite (Precisao.Media_NDVI x) r.
Proof.
  unfold Precisao.mascara_desvio, Precisao.Percent_Desvio,
    Precisao.Diff_NDVI, Precisao.shift.
  simpl. f_equal.
  - rewrite Precisao.abs_nan, Precisao.div_nan, Precisao.mul_nan.
    apply Precisao.leb_nan.
  - apply precisao_mascara_desde_eq.
Qed.

Lemma precisao_nth_mascara_desde (limite : Precisao.num F)
    (r : list (Precisao.Linha F)) (x : Precisao.Linha F) (k : nat) :
  nth_error (Precisao.mascara_desde limite (Precisao.Media_NDVI x) r) k
  = Some true ->
  exists atual anterior,
    nth_error (x :: r) k = Some anterior /\
    nth_error (x :: r) (S k) = Some atual /\
    Precisao.leb F
      (Precisao.desvio_percentual (Precisao.Media_NDVI anterior)
         (Precisao.Media_NDVI atual)) limite = true.
Proof.
  revert x k. induction r as [|y r IH]; intros x k H.
  - destruct k; discriminate.
  - destruct k as [|k]; simpl in H.
    + exists y, x. inversion H. repeat split; reflexivity.
    + destruct (IH y k H) as (a & b & Hb & Ha & Hle).
      exists a, b. repeat split; assumption.
Qed.

Lemma precisao_mascara_desde_length (limite : Precisao.num F)
    (r : list (Precisao.Linha F)) (anterior : Precisao.num F) :
  length (Precisao.mascara_desde limite anterior r) = length r.
Proof. revert anterior. induction r; intros; simpl; auto. Qed.

Lemma precisao_mascara_desvio_length (limite : Precisao.num F)
    (df : list (Precisao.Linha F)) :
  length (Precisao.mascara_desvio limite df) = length df.
Proof.
  destruct df as [|x r]; [reflexivity|].
  rewrite precisao_mascara_desvio_cons. simpl. f_equal.
  apply precisao_mascara_desde_length.
Qed.

Lemma precisao_posicao_retida (limite : Precisao.num F)
    (df : list (Precisao.Linha F)) (p : nat) :
  In p (Precisao.posicoes_retidas limite df) ->
  exists k anterior atual,
    p = S k /\
    nth_error df k = Some anterior /\
    nth_error df p = Some atual /\
    Precisao.leb F
      (Precisao.desvio_percentual (Precisao.Media_NDVI anterior)
         (Precisao.Media_NDVI atual)) limite = true.
Proof.
  unfold Precisao.posicoes_retidas, Coluna.posicoes. intros Hp.
  apply In_posicoes_desde in Hp. destruct Hp as [_ Hp].
  rewrite Nat.sub_0_r in Hp.
  destruct df as [|x r]; [destruct p; discriminate|].
  rewrite precisao_mascara_desvio_cons in Hp.
  destruct p as [|k]; [discriminate|]. simpl in Hp.
  destruct (precisao_nth_mascara_desde _ _ _ _ Hp) as (a & b & Hb & Ha & Hle).
  exists k, b, a. repeat split; assumption.
Qed.

End EmCadaPrecisao.

(** The float64 filter of the sections above is the filter at the
    [binary64] format. *)
Lemma mascara_desvio_binary64 (T : float) (df : DataFrame) :
  Precisao.mascara_desvio (F := Precisao.binary64) T
    (map de_float64 df)
  = mascara_desvio T df.
Proof.
  destruct df as [|x r]; [reflexivity|].
  change (map de_float64 (x :: r))
    with (de_float64 x :: map de_float64 r).
  rewrite precisao_mascara_desvio_cons, mascara_desvio_cons.
  f_equal. simpl. generalize (Media_NDVI x). clear x.
  induction r as [|y r IH]; intros anterior; simpl; [reflexivity|].
  f_equal. apply IH.
Qed.

(** The precision decides: 0.5, 0.5, -1.000000013e-10 as float32 values.
    In float32 the difference of the last two rounds to -0.5, the
    deviation is exactly 100 and the third row is kept; the same three
    values in float64 give a deviation above 100 and the row is dropped. *)
Example precisao_decide :
  Precisao.posicoes_retidas (F := Precisao.binary32) Precisao.cem32
    [Precisao.mkLinha Precisao.binary32 1 (S754_finite false 8388608 (-24));
     Precisao.mkLinha Precisao.binary32 2 (S754_finite false 8388608 (-24));
     Precisao.mkLinha Precisao.binary32 3 (S754_finite true 14411519 (-57))]
  = [1; 2]%nat /\
  Prim2SF (-0x1.b7cdfep-34) = S754_finite true 7737125348835328 (-86) /\
  posicoes_retidas 100
    [linha 1 0.5; linha 2 0.5; linha 3 (-0x1.b7cdfep-34)]
  = [1]%nat.
Proof. repeat split; vm_compute; reflexivity. Qed.

(** C2: in every precision, for every series and threshold, the filtered
    frame is the rows of the input at the kept positions, taken in
    increasing position (the input order is preserved), and every kept
    row passes the deviation test [|v[p] - v[p-1]| / v[p-1] * 100 <= T],
    computed in the precision of the column, against the row just before
    it in the original, unfiltered series. *)
Theorem C2_retidos_contra_anterior_original (F : Precisao.Formato)
    (T : Precisao.num F) (df : list (Precisao.Linha F)) :
  map Some (Precisao.filtrar_desvios T df)
  = map (nth_error df) (Precisao.posicoes_retidas T df) /\
  StronglySorted lt (Precisao.posicoes_retidas T df) /\
  Forall (fun p =>
            exists k anterior atual,
              p = S k /\
              nth_error df k = Some anterior /\
              nth_error df p = Some atual /\
              Precisao.leb F
                (Precisao.mul F
                   (Precisao.div F
                      (Precisao.abs F
                         (Precisao.sub F (Precisao.Media_NDVI atual)
                            (Precisao.Media_NDVI anterior)))
                      (Precisao.Media_NDVI anterior))
                   (Precisao.cem F))
                T = true)
         (Precisao.posicoes_retidas T df).
Proof.
  split; [|split].
  - unfold Precisao.filtrar_desvios, Precisao.posicoes_retidas, Coluna.posicoes.
    rewrite (selecionar_posicoes _ _ 0 (precisao_mascara_desvio_length T df)).
    apply map_ext. intros p. rewrite Nat.sub_0_r. reflexivity.
  - apply posicoes_desde_crescente.
  - apply Forall_forall. intros p Hp.
    exact (@precisao_posicao_retida F T df p Hp).
Qed.

(** C1: the filter drops the row at position 0 of every series, for every
    threshold; on the series [10, 25] with threshold 100 it drops both
    rows, and the run stops on the empty filtered frame. *)
Theorem C1_posicao_0_descartada :
  (forall (T : float) (df : DataFrame), ~ In 0%nat (posicoes_retidas T df)) /\
  Percent_Desvio [linha 1 10; linha 2 25] = [nan; 150] /\
  filtrar_desvios 100 [linha 1 10; linha 2 25] = [] /\
  tabelas [linha 1 10; linha 2 25] = inl NenhumDadoRestante.
Proof.
  repeat split.
  intros T df H0. apply posicao_retida in H0.
  destruct H0 as (k & _ & _ & Hk & _). discriminate.
Qed.

End FiltroFatos.

(** ** Ordering by date and the tables *)

Section TabelasFatos.

Lemma inserir_Permutation (x : Linha) (l : DataFrame) :
  Permutation (x :: l) (inserir x l).
Proof.
  induction l as [|y r IH]; simpl; [reflexivity|].
  destruct (Data x <=? Data y)%Z; [reflexivity|].
  rewrite perm_swap. constructor. exact IH.
Qed.

Lemma sort_values_Permutation (l : DataFrame) : Permutation l (sort_values l).
Proof.
  induction l as [|x r IH]; simpl; [constructor|].
  rewrite <- inserir_Permutation. constructor. exact IH.
Qed.

Lemma inserir_Sorted (x : Linha) (l : DataFrame) :
  Sorted data_le l -> Sorted data_le (inserir x l).
Proof.
  induction l as [|y r IH]; intros Hs; simpl.
  - repeat constructor.
  - destruct (Data x <=? Data y)%Z eqn:E.
    + constructor; [assumption|]. constructor. apply Z.leb_le. exact E.
    + apply Z.leb_gt in E. inversion Hs as [|? ? Hr Hhd]; subst.
      constructor; [auto|].
      destruct r as [|z r]; simpl.
      * constructor. unfold data_le. lia.
      * destruct (Data x <=? Data z)%Z; constructor; unfold data_le; try lia.
        inversion Hhd; subst. assumption.
Qed.

Lemma data_le_trans : Relations_1.Transitive data_le.
Proof. intros a b c. unfold data_le. lia. Qed.

Lemma sort_values_ordenado (l : DataFrame) :
  StronglySorted data_le (sort_values l).
Proof.
  apply Sorted_StronglySorted; [exact data_le_trans|].
  induction l as [|x r IH]; simpl; [constructor|].
  apply inserir_Sorted. exact IH.
Qed.

(** A frame that is already in order is left as it is. *)
Lemma sort_values_ja_ordenado (l : DataFrame) :
  StronglySorted data_le l -> sort_values l = l.
Proof.
  induction l as [|x r IH]; intros Hs; simpl; [reflexivity|].
  apply StronglySorted_inv in Hs. destruct Hs as [Hr Hx].
  rewrite (IH Hr). destruct r as [|y r]; simpl; [reflexivity|].
  apply Forall_inv in Hx. unfold data_le in Hx.
  apply Z.leb_le in Hx. rewrite Hx. reflexivity.
Qed.

Lemma sort_values_idempotente (l : DataFrame) :
  sort_values (sort_values l) = sort_values l.
Proof. apply sort_values_ja_ordenado, sort_values_ordenado. Qed.

Lemma sort_values_nil (l : DataFrame) : sort_values l = [] -> l = [].
Proof.
  intros H. pose proof (sort_values_Permutation l) as Hp.
  rewrite H in Hp. apply Permutation_nil. symmetry. exact Hp.
Qed.

(** The tables depend on the input only through its sorted frame. *)
Lemma tabelas_sort_values (dados : list Linha) :
  tabelas dados = tabelas (sort_values dados).
Proof.
  unfold tabelas.
  destruct dados as [|x r]; [reflexivity|].
  destruct (sort_values (x :: r)) as [|y r'] eqn:E.
  - apply sort_values_nil in E. discriminate.
  - rewrite <- E, sort_values_idempotente. reflexivity.
Qed.

Lemma sort_values_ordena_por_data : ordena_por_data sort_values.
Proof.
  intros l. split; [apply sort_values_Permutation | apply sort_values_ordenado].
Qed.

Lemma tabelas_com_sort_values (dados : list Linha) :
  tabelas_com sort_values dados = tabelas dados.
Proof. reflexivity. Qed.

(** C7, as the code has it: there is no check of the order.  Whatever
    sort line 65 runs, as long as it returns the rows in ascending date
    order, the run stops only on an empty input (line 61) or on an empty
    filtered frame (line 79); otherwise it goes on with the full table
    made of the input rows, all of them, in ascending date order, and
    filters that table. *)
Theorem C7_ordena_a_entrada (ordenar : DataFrame -> DataFrame)
    (dados : list Linha) :
  ordena_por_data ordenar ->
  match tabelas_com ordenar dados with
  | inl NenhumDadoValido => dados = []
  | inl NenhumDadoRestante =>
      dados <> [] /\ filtrar_desvios limite_desvio (ordenar dados) = []
  | inr t =>
      Permutation dados (df t) /\
      StronglySorted data_le (df t) /\
      df_filtrado t = filtrar_desvios limite_desvio (df t) /\
      df_filtrado t <> []
  end.
Proof.
  intros Hord. destruct (Hord dados) as [Hp Hs].
  unfold tabelas_com. destruct dados as [|x r]; [reflexivity|].
  destruct (filtrar_desvios limite_desvio (ordenar (x :: r))) eqn:E; simpl.
  - split; [discriminate | reflexivity].
  - repeat split; try assumption.
    + symmetry. exact E.
    + discriminate.
Qed.

Lemma C7_ordena_a_entrada_witness :
  match tabelas_com sort_values
          [linha 3 0.5; linha 1 0.5; linha 2 0.75] with
  | inl NenhumDadoValido =>
      [linha 3 0.5; linha 1 0.5; linha 2 0.75] = []
  | inl NenhumDadoRestante =>
      [linha 3 0.5; linha 1 0.5; linha 2 0.75] <> [] /\
      filtrar_desvios limite_desvio
        (sort_values [linha 3 0.5; linha 1 0.5; linha 2 0.75]) = []
  | inr t =>
      Permutation [linha 3 0.5; linha 1 0.5; linha 2 0.75] (df t) /\
      StronglySorted data_le (df t) /\
      df_filtrado t = filtrar_desvios limite_desvio (df t) /\
      df_filtrado t <> []
  end.
Proof.
  apply (@C7_ordena_a_entrada sort_values).
  exact sort_values_ordena_por_data.
Defined.

(** An input that is out of order, and one with a repeated date: both runs
    succeed, the first on the re-ordered rows. *)
Lemma C7_contraexemplo :
  ~ StronglySorted data_lt [linha 3 0.5; linha 1 0.5; linha 2 0.75] /\
  tabelas [linha 3 0.5; linha 1 0.5; linha 2 0.75]
  = inr (mkTabelas [linha 1 0.5; linha 2 0.75; linha 3 0.5]
                   [linha 2 0.75; linha 3 0.5] [nan; nan]%float) /\
  ~ NoDup (map Data [linha 1 0.5; linha 1 0.75]) /\
  tabelas [linha 1 0.5; linha 1 0.75]
  = inr (mkTabelas [linha 1 0.5; linha 1 0.75] [linha 1 0.75] [nan]%float).
Proof.
  repeat split.
  - intros H. apply StronglySorted_inv in H. destruct H as [_ H].
    apply Forall_inv in H. unfold data_lt in H. simpl in H. lia.
  - intros H. simpl in H. apply NoDup_cons_iff in H. simpl in H. tauto.
Qed.

(** C8: on an input without observations the run stops with the error of
    line 61 and produces no table; it is the only input that does. *)
Theorem C8_serie_vazia :
  tabelas [] = inl NenhumDadoValido /\
  forall dados, tabelas dados = inl NenhumDadoValido <-> dados = [].
Proof.
  split; [reflexivity|]. intros dados. split.
  - unfold tabelas. destruct dados as [|x r]; [reflexivity|].
    destruct (filtrar_desvios limite_desvio (sort_values (x :: r)));
      discriminate.
  - intros ->. reflexivity.
Qed.

End TabelasFatos.

(** ** The smoother *)

Section RollingFatos.

Import Rolling.

Open Scope float_scope.

(** *** Slices *)

Lemma firstn_soma (A : Type) (n m : nat) (l : list A) :
  firstn (n + m) l = firstn n l ++ firstn m (skipn n l).
Proof.
  revert l. induction n as [|n IH]; intros [|y l]; simpl;
    rewrite ?firstn_nil; try reflexivity.
  f_equal. apply IH.
Qed.

Lemma fatia_app (a b c : nat) (l : list float) :
  (a <= b)%nat -> (b <= c)%nat ->
  fatia a c l = fatia a b l ++ fatia b c l.
Proof.
  intros Hab Hbc. unfold fatia.
  replace (c - a)%nat with ((b - a) + (c - b))%nat by lia.
  rewrite firstn_soma, skipn_skipn.
  replace (b - a + a)%nat with b by lia. reflexivity.
Qed.

Lemma fatia_length (a b : nat) (l : list float) :
  length (fatia a b l) = Nat.min (b - a) (length l - a).
Proof. unfold fatia. rewrite length_firstn, length_skipn. reflexivity. Qed.

Lemma fatia_map (f : float -> float) (a b : nat) (l : list float) :
  fatia a b (map f l) = map f (fatia a b l).
Proof. unfold fatia. rewrite skipn_map, firstn_map. reflexivity. Qed.

Lemma calc_mean_poucas (minp : Z) (a : Acumulador) :
  (nobs a < minp)%Z -> calc_mean minp a = nan.
Proof.
  intros H. unfold calc_mean.
  replace (minp <=? nobs a)%Z with false
    by (symmetry; apply Z.leb_gt; exact H).
  reflexivity.
Qed.


(** *** What the accumulator holds *)

Definition contagem (vals : list float) : Z :=
  Z.of_nat (length (filter observado vals)).

Lemma contagem_app (a b : list float) :
  contagem (a ++ b) = (contagem a + contagem b)%Z.
Proof. unfold contagem. rewrite filter_app, length_app. lia. Qed.

Lemma contagem_le (vals : list float) :
  (0 <= contagem vals <= Z.of_nat (length vals))%Z.
Proof.
  unfold contagem. pose proof (filter_length_le observado vals). lia.
Qed.

(** [sequencia_final adicionados a]: whenever the values added last are
    [m] copies of one observation, the accumulator remembers that value
    and has counted at least [m] of them. *)
Definition sequencia_final (adicionados : list float) (a : Acumulador)
  : Prop :=
  (0 <= num_consecutive_same_value a)%Z /\
  forall v m,
    (1 <= m <= length adicionados)%nat ->
    Forall (fun val => val = v) (skipn (length adicionados - m) adicionados) ->
    observado v = true ->
    prev_value a = v /\ (Z.of_nat m <= num_consecutive_same_value a)%Z.

Lemma skipn_ultimos (l : list float) (val : float) (m : nat) :
  (1 <= m <= S (length l))%nat ->
  skipn (S (length l) - m) (l ++ [val])
  = skipn (length l - (m - 1)) l ++ [val].
Proof.
  intros Hm. rewrite skipn_app.
  replace (S (length l) - m)%nat with (length l - (m - 1))%nat by lia.
  replace (length l - (m - 1) - length l)%nat with 0%nat by lia.
  reflexivity.
Qed.

Lemma sequencia_final_add (adicionados : list float) (val : float)
    (a : Acumulador) :
  sequencia_final adicionados a ->
  sequencia_final (adicionados ++ [val]) (add_mean val a).
Proof.
  intros [Hpos Hrun]. unfold add_mean.
  destruct (observado val) eqn:Eo.
  - split.
    + cbn [num_consecutive_same_value].
      destruct (val =? prev_value a); lia.
    + intros v m Hm Hall Hv. rewrite last_length in Hm, Hall.
      rewrite (skipn_ultimos _ _ Hm) in Hall.
      apply Forall_app in Hall.
      destruct Hall as [Hant Hval]. apply Forall_inv in Hval. subst val.
      cbn [prev_value num_consecutive_same_value].
      split; [reflexivity|].
      destruct (Nat.eq_dec m 1) as [->|Hm1].
      * destruct (v =? prev_value a); lia.
      * destruct (Hrun v (m - 1)%nat) as [Hp Hn]; [lia | exact Hant | exact Hv |].
        rewrite Hp. unfold observado in Hv. rewrite Hv. lia.
  - split; [exact Hpos|].
    intros v m Hm Hall Hv. rewrite last_length in Hm, Hall.
    rewrite (skipn_ultimos _ _ Hm) in Hall.
    apply Forall_app in Hall. destruct Hall as [_ Hval].
    apply Forall_inv in Hval. subst val. congruence.
Qed.

Lemma sequencia_final_add_todos (vals adicionados : list float)
    (a : Acumulador) :
  sequencia_final adicionados a ->
  sequencia_final (adicionados ++ vals) (add_todos vals a).
Proof.
  revert adicionados a. induction vals as [|val vals IH];
    intros adicionados a H.
  - rewrite app_nil_r. exact H.
  - replace (adicionados ++ val :: vals)
      with ((adicionados ++ [val]) ++ vals)
      by (rewrite <- app_assoc; reflexivity).
    apply IH. apply sequencia_final_add. exact H.
Qed.

(** Forgetting the oldest additions keeps what is known of the last. *)
Lemma sequencia_final_sufixo (pre adicionados : list float)
    (a : Acumulador) :
  sequencia_final (pre ++ adicionados) a -> sequencia_final adicionados a.
Proof.
  intros [Hpos Hrun]. split; [exact Hpos|].
  intros v m Hm Hall Hv. apply (Hrun v m); [rewrite length_app; lia | | exact Hv].
  rewrite length_app.
  replace (length pre + length adicionados - m)%nat
    with (length pre + (length adicionados - m))%nat by lia.
  rewrite skipn_app, skipn_all2 by lia.
  replace (length pre + (length adicionados - m) - length pre)%nat
    with (length adicionados - m)%nat by lia.
  exact Hall.
Qed.

Lemma remove_todos_campos (vals : list float) (a : Acumulador) :
  nobs (remove_todos vals a) = (nobs a - contagem vals)%Z /\
  num_consecutive_same_value (remove_todos vals a)
  = num_consecutive_same_value a /\
  prev_value (remove_todos vals a) = prev_value a.
Proof.
  revert a. induction vals as [|val vals IH]; intros a.
  - unfold contagem. simpl. repeat split. lia.
  - unfold remove_todos in *. cbn [fold_left].
    destruct (IH (remove_mean val a)) as (Hn & Hc & Hp).
    rewrite Hn, Hc, Hp. unfold remove_mean, contagem. cbn [filter].
    destruct (observado val); cbn [nobs num_consecutive_same_value prev_value length];
      repeat split; lia.
Qed.

Lemma add_todos_nobs (vals : list float) (a : Acumulador) :
  nobs (add_todos vals a) = (nobs a + contagem vals)%Z.
Proof.
  revert a. induction vals as [|val vals IH]; intros a.
  - unfold contagem. simpl. lia.
  - unfold add_todos in *. cbn [fold_left]. rewrite IH.
    unfold add_mean, contagem. cbn [filter].
    destruct (observado val); cbn [nobs length]; lia.
Qed.

Section Laco.

Variables (window : nat) (values : list float) (minp : Z).

(** The accumulator describes the window [values[s:e]]. *)
Definition descreve (s e : nat) (a : Acumulador) : Prop :=
  nobs a = contagem (fatia s e values) /\
  sequencia_final (fatia s e values) a.

Lemma inicio_le_fim (k : nat) : (inicio window values k <= fim window values k)%nat.
Proof. unfold inicio, fim. lia. Qed.

Lemma inicio_mono (k : nat) :
  (inicio window values k <= inicio window values (S k))%nat.
Proof. unfold inicio. lia. Qed.

Lemma fim_mono (k : nat) :
  (fim window values k <= fim window values (S k))%nat.
Proof. unfold fim. lia. Qed.

Lemma preparar_descreve (s e : nat) : descreve s e (preparar values s e).
Proof.
  unfold descreve, preparar. split.
  - rewrite add_todos_nobs. cbn [nobs]. lia.
  - apply (@sequencia_final_add_todos (fatia s e values) []).
    split; [cbn; lia|]. intros v m Hm. simpl in Hm. lia.
Qed.

Lemma deslizar_descreve (s_ant e_ant s e : nat) (a : Acumulador) :
  (s_ant <= s)%nat -> (s <= e_ant)%nat -> (e_ant <= e)%nat ->
  descreve s_ant e_ant a ->
  descreve s e
    (add_todos (fatia e_ant e values)
       (remove_todos (fatia s_ant s values) a)).
Proof.
  intros H1 H2 H3 [Hn Hrun].
  destruct (remove_todos_campos (fatia s_ant s values) a) as (Rn & Rc & Rp).
  rewrite (fatia_app _ H1 H2) in Hn, Hrun.
  rewrite contagem_app in Hn.
  unfold descreve. rewrite (fatia_app _ H2 H3). split.
  - rewrite add_todos_nobs, Rn, Hn, contagem_app. lia.
  - apply sequencia_final_add_todos.
    apply sequencia_final_sufixo in Hrun.
    destruct Hrun as [Hpos Hrun]. split.
    + rewrite Rc. exact Hpos.
    + intros v m Hm Hall Hv. rewrite Rc, Rp. exact (Hrun v m Hm Hall Hv).
Qed.

(** Every entry of the result is [calc_mean] of an accumulator that
    describes the window of its position. *)
Lemma roll_mean_desde_nth (restantes k s_ant e_ant : nat) (a : Acumulador) :
  (k = 0%nat \/
   exists k', k = S k' /\ s_ant = inicio window values k' /\
              e_ant = fim window values k' /\ descreve s_ant e_ant a) ->
  forall j, (j < restantes)%nat ->
  exists a',
    nth_error (roll_mean_desde window values minp restantes k s_ant e_ant a) j
    = Some (calc_mean minp a') /\
    descreve (inicio window values (k + j)) (fim window values (k + j)) a'.
Proof.
  revert k s_ant e_ant a. induction restantes as [|r IH];
    intros k s_ant e_ant a Hk j Hj; [lia|].
  cbn [roll_mean_desde].
  set (s := inicio window values k). set (e := fim window values k).
  set (a1 := if (k =? 0)%nat || (e_ant <=? s)%nat
             then preparar values s e
             else add_todos (fatia e_ant e values)
                    (remove_todos (fatia s_ant s values) a)).
  assert (Ha1 : descreve s e a1).
  { subst a1. destruct ((k =? 0)%nat || (e_ant <=? s)%nat) eqn:Eb.
    - apply preparar_descreve.
    - apply orb_false_elim in Eb. destruct Eb as [Ek Ee].
      apply Nat.eqb_neq in Ek. apply Nat.leb_gt in Ee.
      destruct Hk as [Hk|(k' & -> & -> & -> & Hd)]; [contradiction|].
      apply deslizar_descreve; try assumption.
      + apply inicio_mono.
      + lia.
      + apply fim_mono. }
  destruct j as [|j].
  - exists a1. rewrite Nat.add_0_r. split; [reflexivity | exact Ha1].
  - cbn [nth_error].
    destruct (IH (S k) s e a1) with (j := j) as (a' & E & Hd).
    + right. exists k.
      split; [reflexivity|]. split; [reflexivity|].
      split; [reflexivity | exact Ha1].
    + lia.
    + exists a'. replace (k + S j)%nat with (S k + j)%nat by lia.
      split; assumption.
Qed.

Lemma roll_mean_desde_length (restantes k s_ant e_ant : nat)
    (a : Acumulador) :
  length (roll_mean_desde window values minp restantes k s_ant e_ant a)
  = restantes.
Proof.
  revert k s_ant e_ant a. induction restantes as [|r IH]; intros; simpl;
    [reflexivity | rewrite IH; reflexivity].
Qed.

Lemma roll_mean_nth (k : nat) :
  (k < length values)%nat ->
  exists a,
    nth_error (roll_mean window values minp) k = Some (calc_mean minp a) /\
    descreve (inicio window values k) (fim window values k) a.
Proof.
  intros Hk. unfold roll_mean.
  destruct (@roll_mean_desde_nth (length values) 0 0 0
              (mkAcumulador 0 0 0 0 0 0 nan) (or_introl eq_refl) k Hk)
    as (a & E & Hd).
  exists a. split; assumption.
Qed.

End Laco.

(** *** The prepared column *)

Lemma prep_values_length (c : list float) :
  length (prep_values c) = length c.
Proof. apply length_map. Qed.

Lemma inicio_prep (W : nat) (c : list float) (k : nat) :
  inicio W (prep_values c) k = inicio W c k.
Proof. unfold inicio. rewrite prep_values_length. reflexivity. Qed.

Lemma fim_prep (W : nat) (c : list float) (k : nat) :
  fim W (prep_values c) k = fim W c k.
Proof. unfold fim. rewrite prep_values_length. reflexivity. Qed.

(** After the preparation the observations are the finite values. *)
Lemma observado_prep (v : float) :
  observado (if is_infinity v then nan else v) = is_finite v.
Proof.
  unfold observado, is_finite, is_nan.
  destruct (is_infinity v); destruct (v =? v); reflexivity.
Qed.

Lemma contagem_prep (l : list float) :
  contagem (map (fun v => if is_infinity v then nan else v) l)
  = Z.of_nat (length (filter is_finite l)).
Proof.
  unfold contagem. f_equal. induction l as [|v l IH]; [reflexivity|].
  cbn [map filter]. rewrite observado_prep.
  destruct (is_finite v); cbn [length]; rewrite IH; reflexivity.
Qed.


(** Each entry of the smoothed column, from the window of its position. *)
Lemma rolling_mean_center_nth (W : nat) (c : list float) (k : nat) :
  (k < length c)%nat ->
  exists a,
    nth_error (rolling_mean_center W c) k
    = Some (calc_mean (Z.of_nat W) a) /\
    nobs a = Z.of_nat (length (filter is_finite (janela_em W c k))) /\
    sequencia_final
      (map (fun v => if is_infinity v then nan else v) (janela_em W c k)) a.
Proof.
  intros Hk. unfold rolling_mean_center.
  destruct (@roll_mean_nth W (prep_values c) (Z.of_nat W) k) as (a & E & Hn & Hs);
    [rewrite prep_values_length; exact Hk|].
  rewrite inicio_prep, fim_prep in Hn, Hs.
  unfold prep_values in Hn, Hs. rewrite fatia_map in Hn, Hs.
  rewrite contagem_prep in Hn.
  exists a. split; [exact E|]. split; [exact Hn | exact Hs].
Qed.

Lemma rolling_mean_center_length (W : nat) (c : list float) :
  length (rolling_mean_center W c) = length c.
Proof.
  unfold rolling_mean_center, roll_mean.
  rewrite roll_mean_desde_length. apply prep_values_length.
Qed.

(** A window with fewer than [W] finite values gives [NaN]. *)
Lemma rolling_mean_center_poucas (W : nat) (c : list float) (k : nat) :
  (k < length c)%nat ->
  (length (filter is_finite (janela_em W c k)) < W)%nat ->
  nth_error (rolling_mean_center W c) k = Some nan.
Proof.
  intros Hk Hw.
  destruct (rolling_mean_center_nth W c Hk) as (a & E & Hn & _).
  rewrite E. f_equal. apply calc_mean_poucas. lia.
Qed.




(** The running mean is not the sum divided by the count: nine times the
    float64 nearest to 0.1 give that value, where the sum divided by nine
    is one unit in the last place below it. *)
Example media_de_valores_repetidos :
  let v := 0x1.999999999999ap-4 in
  rolling_mean_center janela_suavizacao [v; v; v; v; v; v; v; v; v]
  = [nan; nan; nan; nan; v; nan; nan; nan; nan] /\
  fold_left PrimFloat.add [v; v; v; v; v; v; v; v; v] 0 / 9
  = 0x1.9999999999999p-4.
Proof. split; vm_compute; reflexivity. Qed.



End RollingFatos.

(** ** The cycle sequencer *)

Section SequenciadorFatos.

Import Sequenciador.

Variables picos vales : list Z.

(** The loop, unfolded once. *)
Lemma laco_eq (st : Estado) :
  laco picos vales st =
  if condicao picos vales st
  then st' <- corpo picos vales st ;; laco picos vales st'
  else Ok st.
Proof.
  funelim (laco picos vales st); clear Heqcall.
  - rewrite e. reflexivity.
  - rewrite Hc, Hb. reflexivity.
  - rewrite Hc, e. reflexivity.
Qed.

(** Loop rule: when the body never fails on a state that satisfies [P] and
    leaves a state that satisfies it again, the loop started in such a
    state returns, in a state that satisfies [P] and falsifies the loop
    condition. *)
Lemma laco_regra (P : Estado -> Prop) :
  (forall st, P st -> condicao picos vales st = true ->
              exists st', corpo picos vales st = Ok st' /\ P st') ->
  forall st, P st ->
  exists r, laco picos vales st = Ok r /\ P r /\ condicao picos vales r = false.
Proof.
  intros Hcorpo st.
  funelim (laco picos vales st); intros HP.
  - exists st. auto.
  - destruct (Hcorpo st HP Hc) as (st1 & Hst1 & HP1).
    rewrite Hb in Hst1. inversion Hst1; subst st1.
    match goal with IH : forall Q : Estado -> Prop, _ |- _ => apply IH; assumption end.
  - destruct (Hcorpo st HP Hc) as (st1 & Hst1 & _). congruence.
Qed.

Lemma alcancavel_regra (P : Estado -> Prop) :
  P estado_inicial ->
  (forall st, P st -> condicao picos vales st = true ->
              exists st', corpo picos vales st = Ok st' /\ P st') ->
  forall st, alcancavel picos vales st -> P st.
Proof.
  intros H0 Hcorpo st Hst. induction Hst as [|st st' _ IH Hc Hb]; [assumption|].
  destruct (Hcorpo st IH Hc) as (st1 & Hst1 & HP1). congruence.
Qed.

(** Reads that cannot fail. *)
Lemma item_Ok (A : Type) (l : list A) (k : nat) :
  k < length l -> exists a, item l k = Ok a.
Proof.
  intros Hk. unfold item.
  destruct (nth_error l k) as [a|] eqn:E; [eauto|].
  apply nth_error_None in E. lia.
Qed.

Lemma ultimo_app (A : Type) (l : list A) (a : A) : ultimo (l ++ [a]) = Ok a.
Proof. unfold ultimo. rewrite rev_app_distr. reflexivity. Qed.

Lemma ultimo_Ok (A : Type) (l : list A) :
  l <> [] -> exists a, ultimo l = Ok a.
Proof.
  destruct l as [|x l] using rev_ind; [congruence|].
  intros _. exists x. apply ultimo_app.
Qed.

(** Alternation and a label appended at the end. *)
Lemma alterna_app (l : list Rotulo) (e r : Rotulo) :
  alterna e (l ++ [r]) = alterna e l && eqb_rotulo r (proximo e l).
Proof.
  revert e. induction l as [|x l IH]; intros e; simpl.
  - apply andb_true_r.
  - rewrite IH. apply andb_assoc.
Qed.

Lemma proximo_app (l : list Rotulo) (e r : Rotulo) :
  proximo e (l ++ [r]) = outro (proximo e l).
Proof. revert e. induction l as [|x l IH]; intros e; simpl; auto. Qed.

Lemma eqb_rotulo_refl (r : Rotulo) : eqb_rotulo r r = true.
Proof. destruct r; reflexivity. Qed.

(** Alternating labels: neighbours differ. *)
Lemma alterna_vizinhos (l : list Rotulo) (e : Rotulo) (k : nat) (a b : Rotulo) :
  alterna e l = true ->
  nth_error l k = Some a -> nth_error l (S k) = Some b -> a <> b.
Proof.
  revert e k. induction l as [|x l IH]; intros e k Ha Hk HSk.
  - destruct k; discriminate.
  - simpl in Ha. apply andb_prop in Ha. destruct Ha as [Hx Hl].
    destruct k as [|k]; [|exact (IH _ _ Hl Hk HSk)].
    destruct l as [|y l]; [discriminate|].
    simpl in Hk, HSk, Hl. inversion Hk; inversion HSk; subst.
    apply andb_prop in Hl. destruct Hl as [Hy _].
    destruct a, b, e; discriminate.
Qed.

Lemma alterna_emitir (t : list Tendencia) (r : Rotulo) (x : Z) :
  alterna corte (rotulos t) = true -> proximo corte (rotulos t) = r ->
  alterna corte (rotulos (t ++ [(r, x)])) = true.
Proof.
  intros Ha Hp. unfold rotulos. rewrite map_app. simpl.
  rewrite alterna_app. apply andb_true_intro. split; [exact Ha|].
  subst r. apply eqb_rotulo_refl.
Qed.

Lemma bem_formado_inicial : bem_formado estado_inicial.
Proof. split; reflexivity. Qed.

Lemma bem_formado_pico (st : Estado) :
  bem_formado st -> sequencia st = pico -> tendencias_filtradas st <> [].
Proof.
  intros [_ Hp] Hs E. rewrite E, Hs in Hp. discriminate.
Qed.

Lemma bem_formado_emitir (st : Estado) (x : Z) (i' j' : nat) (s' : Sequencia) :
  bem_formado st -> rotulo_de s' = outro (rotulo_de (sequencia st)) ->
  bem_formado (mkEstado i' j' s'
                 (tendencias_filtradas st ++ [(rotulo_de (sequencia st), x)])).
Proof.
  intros [Ha Hp] Hs. unfold bem_formado, rotulos in *. simpl.
  rewrite map_app. simpl. rewrite alterna_app, proximo_app. split.
  - apply andb_true_intro. split; [exact Ha|].
    rewrite <- Hp. apply eqb_rotulo_refl.
  - rewrite Hs. f_equal. exact Hp.
Qed.

(** The body, state by state. *)
Lemma corpo_crescimento (st : Estado) :
  sequencia st = crescimento ->
  corpo picos vales st =
  (p <- item picos (i st) ;;
   v <- item vales (j st) ;;
   if (p <? v)%Z
   then Ok (mkEstado (S (i st)) (j st) pico
              (tendencias_filtradas st ++ [(corte, p)]))
   else Ok (mkEstado (S (i st)) (j st) crescimento (tendencias_filtradas st))).
Proof.
  intros Es. unfold corpo, avancar. rewrite Es. simpl.
  destruct (item picos (i st)) as [p|]; simpl; [|reflexivity].
  destruct (item vales (j st)) as [v|]; simpl; [|reflexivity].
  destruct (p <? v)%Z; reflexivity.
Qed.

Lemma corpo_pico (st : Estado) :
  sequencia st = pico ->
  corpo picos vales st =
  (v <- item vales (j st) ;;
   u <- ultimo (tendencias_filtradas st) ;;
   if (v >? snd u)%Z
   then Ok (mkEstado (i st) (S (j st)) crescimento
              (tendencias_filtradas st ++ [(crescimento_ou_corte, v)]))
   else Ok (mkEstado (i st) (S (j st)) pico (tendencias_filtradas st))).
Proof.
  intros Es. unfold corpo, avancar. rewrite Es. simpl.
  destruct (item vales (j st)) as [v|]; simpl; [|reflexivity].
  destruct (ultimo (tendencias_filtradas st)) as [u|]; simpl; [|reflexivity].
  destruct (v >? snd u)%Z; reflexivity.
Qed.

Lemma bem_formado_cursores (st : Estado) (i' j' : nat) :
  bem_formado st ->
  bem_formado (mkEstado i' j' (sequencia st) (tendencias_filtradas st)).
Proof. unfold bem_formado. auto. Qed.

Lemma corpo_bem_formado (st : Estado) :
  bem_formado st -> condicao picos vales st = true ->
  exists st', corpo picos vales st = Ok st' /\ bem_formado st'.
Proof.
  intros Hbf Hc. unfold condicao in Hc.
  apply andb_prop in Hc. destruct Hc as [Hi Hj].
  apply Nat.ltb_lt in Hi. apply Nat.ltb_lt in Hj.
  destruct (item_Ok picos Hi) as [p Ep].
  destruct (item_Ok vales Hj) as [v Ev].
  destruct (sequencia st) eqn:Es.
  - rewrite (corpo_crescimento _ Es), Ep, Ev. simpl. destruct (p <? v)%Z.
    + eexists; split; [reflexivity|].
      change corte with (rotulo_de crescimento). rewrite <- Es.
      apply bem_formado_emitir; [assumption | rewrite Es; reflexivity].
    + eexists; split; [reflexivity|].
      rewrite <- Es. apply bem_formado_cursores; assumption.
  - destruct (ultimo_Ok (bem_formado_pico Hbf Es)) as [u Eu].
    rewrite (corpo_pico _ Es), Ev, Eu. simpl. destruct (v >? snd u)%Z.
    + eexists; split; [reflexivity|].
      change crescimento_ou_corte with (rotulo_de pico). rewrite <- Es.
      apply bem_formado_emitir; [assumption | rewrite Es; reflexivity].
    + eexists; split; [reflexivity|].
      rewrite <- Es. apply bem_formado_cursores; assumption.
Qed.

Lemma alcancavel_bem_formado (st : Estado) :
  alcancavel picos vales st -> bem_formado st.
Proof.
  apply alcancavel_regra; [apply bem_formado_inicial | apply corpo_bem_formado].
Qed.

(** The two [if]s after the loop keep the alternation. *)
Lemma remanescentes_alterna (st : Estado) :
  bem_formado st ->
  exists evs, remanescentes picos vales st = Ok evs /\
              alterna corte (rotulos evs) = true.
Proof.
  intros [Ha Hp]. unfold remanescentes.
  destruct (sequencia st) eqn:Es; simpl.
  - rewrite andb_false_r, andb_true_r.
    destruct (i st <? length picos)%nat eqn:Hi; simpl.
    + apply Nat.ltb_lt in Hi. destruct (item_Ok picos Hi) as [p Ep].
      rewrite Ep. simpl. eexists; split; [reflexivity|].
      apply (alterna_emitir _ p Ha Hp).
    + eauto.
  - rewrite andb_false_r, andb_true_r. simpl.
    destruct (j st <? length vales)%nat eqn:Hj; simpl.
    + apply Nat.ltb_lt in Hj. destruct (item_Ok vales Hj) as [v Ev].
      rewrite Ev. simpl. eexists; split; [reflexivity|].
      apply (alterna_emitir _ v Ha Hp).
    + eauto.
Qed.

(** C3: for every pair of peak and valley sequences the sequencer returns
    an event list whose labels strictly alternate from [corte] (Cut): the
    first label, when there is one, is [corte], and each label differs
    from the one before it; the events appended after the loop are
    included. *)
Theorem C3_rotulos_alternam :
  exists evs, tendencias picos vales = Ok evs /\
              alterna corte (rotulos evs) = true /\
              match evs with
              | [] => True
              | e :: _ => fst e = corte
              end /\
              forall k a b, nth_error (rotulos evs) k = Some a ->
                            nth_error (rotulos evs) (S k) = Some b -> a <> b.
Proof.
  unfold tendencias.
  destruct (@laco_regra bem_formado corpo_bem_formado _ bem_formado_inicial)
    as (st & El & Hbf & _).
  destruct (remanescentes_alterna Hbf) as (evs & Er & Ha).
  exists evs. rewrite El. simpl. split; [assumption|]. split; [assumption|].
  split.
  - destruct evs as [|[r x] evs]; [exact I|]. simpl in *.
    destruct r; [reflexivity | discriminate].
  - intros k a b. apply alterna_vizinhos with (e := corte). exact Ha.
Qed.

(** C9: in every state in which the loop condition is evaluated, if
    [sequencia] is "pico" then an event has already been emitted, so
    [tendencias_filtradas[-1]] exists; and an iteration of the body started
    in such a state never raises. *)
Theorem C9_pico_tem_evento (st : Estado) :
  alcancavel picos vales st ->
  (sequencia st = pico ->
   tendencias_filtradas st <> [] /\
   exists u, ultimo (tendencias_filtradas st) = Ok u) /\
  (condicao picos vales st = true ->
   exists st', corpo picos vales st = Ok st').
Proof.
  intros Hst. apply alcancavel_bem_formado in Hst. split.
  - intros Es. pose proof (bem_formado_pico Hst Es) as Hne.
    split; [assumption | apply ultimo_Ok; assumption].
  - intros Hc. destruct (corpo_bem_formado Hst Hc) as (st' & E & _). eauto.
Qed.

End SequenciadorFatos.

Section SequenciadorCasos.

Import Sequenciador.

Open Scope Z_scope.

Lemma C9_pico_tem_evento_witness :
  let st := mkEstado 1 0 pico [(corte, 5)] in
  alcancavel [5] [10] st /\
  ((sequencia st = pico ->
    tendencias_filtradas st <> [] /\
    exists u, ultimo (tendencias_filtradas st) = Ok u) /\
   (condicao [5] [10] st = true ->
    exists st', corpo [5] [10] st = Ok st')).
Proof.
  assert (H : alcancavel [5] [10] (mkEstado 1 0 pico [(corte, 5)])).
  { apply alcancavel_corpo with (st := estado_inicial);
      [apply alcancavel_inicial | reflexivity | reflexivity]. }
  split; [exact H | exact (C9_pico_tem_evento H)].
Defined.

(** C10: without peaks no event is emitted, whatever the valleys are. *)
Theorem C10_sem_picos_sem_eventos (vales : list Z) :
  tendencias [] vales = Ok [].
Proof.
  unfold tendencias. rewrite laco_eq. simpl.
  unfold remanescentes. simpl. rewrite andb_false_r. reflexivity.
Qed.

(** C4: peaks [5, 15] and valleys [10, 20] give the four events
    (Cut,5), (GrowthOrCut,10), (Cut,15), (GrowthOrCut,20); the loop leaves
    with the peak cursor at the end of [picos] and three events, and the
    second [if] after the loop appends the fourth. *)
Theorem C4_cenario_5_15_10_20 :
  tendencias [5; 15] [10; 20]
  = Ok [(corte, 5); (crescimento_ou_corte, 10);
        (corte, 15); (crescimento_ou_corte, 20)] /\
  laco [5; 15] [10; 20] estado_inicial
  = Ok (mkEstado 2 1 pico
          [(corte, 5); (crescimento_ou_corte, 10); (corte, 15)]) /\
  remanescentes [5; 15] [10; 20]
    (mkEstado 2 1 pico [(corte, 5); (crescimento_ou_corte, 10); (corte, 15)])
  = Ok [(corte, 5); (crescimento_ou_corte, 10);
        (corte, 15); (crescimento_ou_corte, 20)].
Proof. repeat split; reflexivity. Qed.

(** C5: on the strictly increasing sequences peaks [10, 20] and valleys
    [30, 40] the emitted indices are 10, 30, 20, 40: the peak at 20 is
    emitted after the valley at 30, because the "crescimento" branch
    compares the peak only with the valley under the cursor and not with
    the last emitted index, as the "pico" branch does. *)
Theorem C5_indices_fora_de_ordem :
  crescente [10; 20] /\ crescente [30; 40] /\
  tendencias [10; 20] [30; 40]
  = Ok [(corte, 10); (crescimento_ou_corte, 30);
        (corte, 20); (crescimento_ou_corte, 40)] /\
  ~ crescente (indices [(corte, 10); (crescimento_ou_corte, 30);
                        (corte, 20); (crescimento_ou_corte, 40)]).
Proof.
  unfold crescente. repeat split.
  - repeat constructor.
  - repeat constructor.
  - intros H. simpl in H.
    apply StronglySorted_inv in H. destruct H as [H _].
    apply StronglySorted_inv in H. destruct H as [_ H].
    apply Forall_inv in H. lia.
Qed.

End SequenciadorCasos.

(** ** Worked runs *)

Section Exemplos.

Import Sequenciador.

Example filtro_10_12_30_31 :
  filtrar_desvios limite_desvio
    [linha 1 10; linha 2 12; linha 3 30; linha 4 31]
  = [linha 2 12; linha 4 31].
Proof. reflexivity. Qed.

Example suavizado_1_13 :
  rolling_mean_center janela_suavizacao
    [1; 2; 3; 4; 5; 6; 7; 8; 9; 10; 11; 12; 13]%float
  = [nan; nan; nan; nan; 5; 6; 7; 8; 9; nan; nan; nan; nan]%float.
Proof. reflexivity. Qed.

Example suavizado_serie_curta :
  rolling_mean_center janela_suavizacao [1; 2; 3]%float
  = [nan; nan; nan]%float.
Proof. reflexivity. Qed.

Example tendencias_pico_sem_vale_depois :
  tendencias [10; 30]%Z [20; 25]%Z
  = Ok [(corte, 10%Z); (crescimento_ou_corte, 20%Z)].
Proof. reflexivity. Qed.

Example tendencias_vale_antes_do_pico :
  tendencias [10]%Z [5; 20]%Z = Ok [].
Proof. reflexivity. Qed.

End Exemplos.

(** * Further properties of the run *)

(** ** Where the emitted indices come from *)

Module Ordem.

Import Sequenciador.

(** The indices of the events that carry a given label, in emission
    order. *)
Definition indices_de (r : Rotulo) (t : list Tendencia) : list Z :=
  map snd (filter (fun e => eqb_rotulo (fst e) r) t).

(** [subsequencia a b]: [a] is [b] with some elements left out. *)
Inductive subsequencia {A : Type} : list A -> list A -> Prop :=
| sub_nil : subsequencia [] []
| sub_cons (x : A) (a b : list A) :
    subsequencia a b -> subsequencia (x :: a) (x :: b)
| sub_skip (x : A) (a b : list A) :
    subsequencia a b -> subsequencia a (x :: b).

(** Every valley event that comes right after a peak event has the larger
    index. *)
Definition vale_apos_pico (t : list Tendencia) : Prop :=
  forall k p v,
    nth_error t k = Some (corte, p) ->
    nth_error t (S k) = Some (crescimento_ou_corte, v) ->
    (p < v)%Z.

Section Invariante.

Variables picos vales : list Z.

(** What the loop keeps about the indices: the valley events are the
    first [j] valleys, the peak events are taken in order from the first
    [i] peaks, and while a valley is awaited the valley under the cursor
    is beyond the peak emitted last. *)
Definition ordenado (st : Estado) : Prop :=
  indices_de crescimento_ou_corte (tendencias_filtradas st)
  = firstn (j st) vales /\
  subsequencia (indices_de corte (tendencias_filtradas st))
               (firstn (i st) picos) /\
  vale_apos_pico (tendencias_filtradas st) /\
  (sequencia st = pico ->
   exists p v, ultimo (tendencias_filtradas st) = Ok (corte, p) /\
               nth_error vales (j st) = Some v /\ (p < v)%Z).

End Invariante.

End Ordem.

Section OrdemFatos.

Import Sequenciador Ordem.

Lemma indices_de_app (r r' : Rotulo) (t : list Tendencia) (x : Z) :
  indices_de r (t ++ [(r', x)])
  = indices_de r t ++ (if eqb_rotulo r' r then [x] else []).
Proof.
  unfold indices_de. rewrite filter_app, map_app. simpl.
  destruct (eqb_rotulo r' r); reflexivity.
Qed.

Lemma firstn_S_nth_error (A : Type) (l : list A) (k : nat) (x : A) :
  nth_error l k = Some x -> firstn (S k) l = firstn k l ++ [x].
Proof.
  revert k. induction l as [|y l IH]; intros [|k] H; simpl in *;
    try discriminate.
  - inversion H. reflexivity.
  - f_equal. apply IH. exact H.
Qed.

Lemma firstn_do_comprimento (A : Type) (l v : list A) (n : nat) :
  l = firstn n v -> l = firstn (length l) v.
Proof.
  intros ->. rewrite length_firstn.
  destruct (Nat.le_ge_cases n (length v)) as [H|H].
  - rewrite Nat.min_l by exact H. reflexivity.
  - rewrite Nat.min_r by exact H.
    rewrite firstn_all, firstn_all2 by exact H. reflexivity.
Qed.

Lemma subsequencia_refl (A : Type) (l : list A) : subsequencia l l.
Proof. induction l; constructor; assumption. Qed.

Lemma subsequencia_app_um (A : Type) (a b : list A) (x : A) :
  subsequencia a b -> subsequencia (a ++ [x]) (b ++ [x]).
Proof.
  induction 1; simpl; try (constructor; assumption).
  repeat constructor.
Qed.

Lemma subsequencia_saltar_um (A : Type) (a b : list A) (x : A) :
  subsequencia a b -> subsequencia a (b ++ [x]).
Proof.
  induction 1; simpl; try (constructor; assumption).
  repeat constructor.
Qed.

Lemma subsequencia_firstn (A : Type) (a l : list A) (k : nat) :
  subsequencia a (firstn k l) -> subsequencia a l.
Proof.
  rewrite <- (firstn_skipn k l) at 2.
  generalize (firstn k l) as b. generalize (skipn k l) as c.
  intros c. induction c as [|x c IH] using rev_ind; intros b H.
  - rewrite app_nil_r. exact H.
  - rewrite app_assoc. apply subsequencia_saltar_um. apply IH. exact H.
Qed.

Lemma subsequencia_In (A : Type) (a b : list A) (x : A) :
  subsequencia a b -> In x a -> In x b.
Proof.
  induction 1; simpl; intros Hin; auto.
  destruct Hin; auto.
Qed.

Lemma subsequencia_crescente (a b : list Z) :
  subsequencia a b -> crescente b -> crescente a.
Proof.
  unfold crescente. induction 1 as [|x a b Hs IH|x a b Hs IH]; intros Hb.
  - constructor.
  - apply StronglySorted_inv in Hb. destruct Hb as [Hb Hx].
    constructor; [auto|]. apply Forall_forall. intros y Hy.
    rewrite Forall_forall in Hx. apply Hx.
    apply (subsequencia_In y Hs Hy).
  - apply StronglySorted_inv in Hb. destruct Hb as [Hb _]. auto.
Qed.

Lemma crescente_firstn (l : list Z) (n : nat) :
  crescente l -> crescente (firstn n l).
Proof.
  apply subsequencia_crescente.
  apply subsequencia_firstn with (k := n). apply subsequencia_refl.
Qed.

(** Appending an event keeps [vale_apos_pico] when the new event, if it is
    a valley right after a peak, is beyond that peak. *)
Lemma vale_apos_pico_app (t : list Tendencia) (e : Tendencia) :
  vale_apos_pico t ->
  (forall p v, ultimo t = Ok (corte, p) ->
               e = (crescimento_ou_corte, v) -> (p < v)%Z) ->
  vale_apos_pico (t ++ [e]).
Proof.
  intros Ht He k p v Hk HSk.
  destruct (Nat.lt_ge_cases (S k) (length t)) as [Hlt|Hge].
  - rewrite nth_error_app1 in Hk by lia.
    rewrite nth_error_app1 in HSk by lia.
    exact (Ht k p v Hk HSk).
  - assert (Hlen : S k = length t).
    { assert (S k < length (t ++ [e]))
        by (apply nth_error_Some; congruence).
      rewrite last_length in *. lia. }
    rewrite nth_error_app2 in HSk by lia.
    rewrite Hlen, Nat.sub_diag in HSk. simpl in HSk. inversion HSk; subst e.
    rewrite nth_error_app1 in Hk by lia.
    apply (He p v); [|reflexivity].
    destruct t as [|y t] using rev_ind; [discriminate|].
    rewrite last_length in Hlen. injection Hlen as Hlen. subst k.
    rewrite nth_error_app2, Nat.sub_diag in Hk by lia. simpl in Hk.
    inversion Hk; subst y. apply ultimo_app.
Qed.

Lemma vale_apos_pico_nil : vale_apos_pico [].
Proof. intros [|k] p v H; discriminate. Qed.

Variables picos vales : list Z.

Lemma ordenado_inicial : ordenado picos vales estado_inicial.
Proof.
  repeat split; simpl.
  - constructor.
  - apply vale_apos_pico_nil.
  - discriminate.
Qed.

(** One iteration keeps the invariant; while a valley is awaited it
    always emits the valley under the cursor. *)
Lemma corpo_ordenado (st : Estado) :
  ordenado picos vales st -> condicao picos vales st = true ->
  exists st', corpo picos vales st = Ok st' /\ ordenado picos vales st' /\
              (sequencia st = pico ->
               exists v, nth_error vales (j st) = Some v /\
                         st' = mkEstado (i st) (S (j st)) crescimento
                                 (tendencias_filtradas st
                                    ++ [(crescimento_ou_corte, v)])).
Proof.
  intros (Hv & Hp & Hvp & Hpico) Hc. unfold condicao in Hc.
  apply andb_prop in Hc. destruct Hc as [Hi Hj].
  apply Nat.ltb_lt in Hi. apply Nat.ltb_lt in Hj.
  destruct (nth_error picos (i st)) as [p|] eqn:Ep;
    [|apply nth_error_None in Ep; lia].
  destruct (nth_error vales (j st)) as [v|] eqn:Ev;
    [|apply nth_error_None in Ev; lia].
  destruct (sequencia st) eqn:Es.
  - rewrite (corpo_crescimento _ _ _ Es). unfold item. rewrite Ep, Ev. simpl.
    destruct (p <? v)%Z eqn:Elt.
    + eexists; split; [reflexivity|]. split; [|discriminate].
      unfold ordenado. cbn [i j sequencia tendencias_filtradas].
      rewrite !indices_de_app. cbn [eqb_rotulo].
      rewrite app_nil_r, (firstn_S_nth_error _ _ Ep).
      repeat split.
      * exact Hv.
      * apply subsequencia_app_um. exact Hp.
      * apply vale_apos_pico_app; [exact Hvp | discriminate].
      * intros _. exists p, v. rewrite ultimo_app.
        repeat split; [exact Ev | apply Z.ltb_lt; exact Elt].
    + eexists; split; [reflexivity|]. split; [|discriminate].
      unfold ordenado. cbn [i j sequencia tendencias_filtradas].
      rewrite (firstn_S_nth_error _ _ Ep).
      repeat split; [exact Hv | | exact Hvp | discriminate].
      apply subsequencia_saltar_um. exact Hp.
  - destruct (Hpico eq_refl) as (p0 & v0 & Eu & Ev0 & Hlt).
    assert (v0 = v) by congruence. subst v0.
    rewrite (corpo_pico _ _ _ Es). unfold item. rewrite Ev, Eu. simpl.
    apply Z.gtb_lt in Hlt. rewrite Hlt. apply Z.gtb_lt in Hlt.
    eexists; split; [reflexivity|]. split; [|intros _; eauto].
    unfold ordenado. cbn [i j sequencia tendencias_filtradas].
      rewrite !indices_de_app. cbn [eqb_rotulo].
    rewrite app_nil_r, (firstn_S_nth_error _ _ Ev), Hv.
    repeat split; [exact Hp | | discriminate].
    apply vale_apos_pico_app; [exact Hvp|].
    intros p1 v1 Eu1 Ee. rewrite Eu in Eu1.
    inversion Eu1; inversion Ee; subst. exact Hlt.
Qed.

Lemma corpo_ordenado' (st : Estado) :
  ordenado picos vales st -> condicao picos vales st = true ->
  exists st', corpo picos vales st = Ok st' /\ ordenado picos vales st'.
Proof.
  intros H Hc. destruct (corpo_ordenado H Hc) as (st' & E & Ho & _). eauto.
Qed.

Lemma alcancavel_ordenado (st : Estado) :
  alcancavel picos vales st -> ordenado picos vales st.
Proof.
  apply alcancavel_regra; [apply ordenado_inicial | apply corpo_ordenado'].
Qed.

(** The event list after the two [if]s that follow the loop. *)
Lemma remanescentes_ordenado (st : Estado) :
  ordenado picos vales st ->
  exists evs, remanescentes picos vales st = Ok evs /\
              (exists n, indices_de crescimento_ou_corte evs = firstn n vales) /\
              subsequencia (indices_de corte evs) picos /\
              vale_apos_pico evs.
Proof.
  intros (Hv & Hp & Hvp & Hpico). unfold remanescentes.
  destruct (sequencia st) eqn:Es; simpl.
  - rewrite andb_false_r, andb_true_r.
    destruct (i st <? length picos)%nat eqn:Hi; simpl.
    + apply Nat.ltb_lt in Hi.
      destruct (nth_error picos (i st)) as [p|] eqn:Ep;
        [|apply nth_error_None in Ep; lia].
      unfold item. rewrite Ep. simpl.
      eexists; split; [reflexivity|]. rewrite !indices_de_app. cbn [eqb_rotulo].
      rewrite app_nil_r. repeat split.
      * eauto.
      * apply subsequencia_firstn with (k := S (i st)).
        rewrite (firstn_S_nth_error _ _ Ep).
        apply subsequencia_app_um. exact Hp.
      * apply vale_apos_pico_app; [exact Hvp | discriminate].
    + eexists; split; [reflexivity|]. repeat split; eauto.
      apply subsequencia_firstn with (k := i st). exact Hp.
  - destruct (Hpico eq_refl) as (p & v & Eu & Ev & Hlt).
    rewrite andb_false_r, andb_true_r. simpl.
    assert (Hj : (j st <? length vales)%nat = true).
    { apply Nat.ltb_lt. apply nth_error_Some. congruence. }
    rewrite Hj. unfold item. rewrite Ev. simpl.
    eexists; split; [reflexivity|]. rewrite !indices_de_app. cbn [eqb_rotulo].
    rewrite app_nil_r, Hv. repeat split.
    + exists (S (j st)). symmetry. apply firstn_S_nth_error. exact Ev.
    + apply subsequencia_firstn with (k := i st). exact Hp.
    + apply vale_apos_pico_app; [exact Hvp|].
      intros p1 v1 Eu1 Ee. rewrite Eu in Eu1.
      inversion Eu1; inversion Ee; subst. exact Hlt.
Qed.

Lemma tendencias_ordenado :
  exists evs, tendencias picos vales = Ok evs /\
              (exists n, indices_de crescimento_ou_corte evs = firstn n vales) /\
              subsequencia (indices_de corte evs) picos /\
              vale_apos_pico evs.
Proof.
  unfold tendencias.
  destruct (@laco_regra picos vales (ordenado picos vales) corpo_ordenado'
              _ ordenado_inicial) as (st & El & Ho & _).
  rewrite El. simpl. apply remanescentes_ordenado. exact Ho.
Qed.

End OrdemFatos.

Section OrdemTeoremas.

Import Sequenciador Ordem.

Open Scope Z_scope.

(** X1: no valley is skipped.  The valley events of the result are
    exactly the first valleys of [vales], in order: as many of them as the
    result has valley events. *)
Theorem X1_vales_emitidos_sao_os_primeiros (picos vales : list Z) :
  exists evs,
    tendencias picos vales = Ok evs /\
    indices_de crescimento_ou_corte evs
    = firstn (length (indices_de crescimento_ou_corte evs)) vales.
Proof.
  destruct (tendencias_ordenado picos vales) as (evs & E & [n Hn] & _ & _).
  exists evs. split; [exact E|]. apply firstn_do_comprimento with (n := n).
  exact Hn.
Qed.

(** X2: the peak events of the result are peaks of [picos], each used at
    most once and in the order of [picos] (peaks may be skipped). *)
Theorem X2_picos_emitidos_na_ordem_de_picos (picos vales : list Z) :
  exists evs,
    tendencias picos vales = Ok evs /\
    subsequencia (indices_de corte evs) picos.
Proof.
  destruct (tendencias_ordenado picos vales) as (evs & E & _ & Hs & _).
  eauto.
Qed.

(** X3: for strictly increasing peaks and valleys, the events of one label
    are in temporal order among themselves: the indices of the peak events
    are strictly increasing, and so are those of the valley events. *)
Theorem X3_cada_rotulo_em_ordem (picos vales : list Z) :
  crescente picos -> crescente vales ->
  exists evs,
    tendencias picos vales = Ok evs /\
    crescente (indices_de corte evs) /\
    crescente (indices_de crescimento_ou_corte evs).
Proof.
  intros Hp Hv.
  destruct (tendencias_ordenado picos vales) as (evs & E & [n Hn] & Hs & _).
  exists evs. repeat split.
  - exact E.
  - exact (subsequencia_crescente Hs Hp).
  - rewrite Hn. apply crescente_firstn. exact Hv.
Qed.

Lemma X3_cada_rotulo_em_ordem_witness :
  exists evs,
    tendencias [10; 20] [30; 40] = Ok evs /\
    crescente (indices_de corte evs) /\
    crescente (indices_de crescimento_ou_corte evs).
Proof.
  apply X3_cada_rotulo_em_ordem; unfold crescente; repeat constructor.
Defined.

(** X4: whenever a valley event comes right after a peak event in the
    result, the valley index is strictly greater than the peak index, for
    all inputs (sorted or not). *)
Theorem X4_vale_depois_do_pico (picos vales : list Z) :
  exists evs,
    tendencias picos vales = Ok evs /\
    forall k p v,
      nth_error evs k = Some (corte, p) ->
      nth_error evs (S k) = Some (crescimento_ou_corte, v) ->
      p < v.
Proof.
  destruct (tendencias_ordenado picos vales) as (evs & E & _ & _ & Hvp).
  exists evs. split; [exact E | exact Hvp].
Qed.

(** X5: the branch that skips a valley (lines 117-118) never runs.  In
    every state the loop reaches with [sequencia == "pico"], the iteration
    emits the valley under the cursor and goes back to "crescimento". *)
Theorem X5_vale_nunca_e_saltado (picos vales : list Z) (st : Estado) :
  alcancavel picos vales st ->
  sequencia st = pico ->
  condicao picos vales st = true ->
  exists v,
    nth_error vales (j st) = Some v /\
    corpo picos vales st
    = Ok (mkEstado (i st) (S (j st)) crescimento
            (tendencias_filtradas st ++ [(crescimento_ou_corte, v)])).
Proof.
  intros Hst Es Hc. apply alcancavel_ordenado in Hst.
  destruct (corpo_ordenado Hst Hc) as (st' & E & _ & Hv).
  destruct (Hv Es) as (v & Ev & ->). eauto.
Qed.

Lemma X5_vale_nunca_e_saltado_witness :
  exists v,
    nth_error [10; 20] 0 = Some v /\
    corpo [5; 15] [10; 20] (mkEstado 1 0 pico [(corte, 5)])
    = Ok (mkEstado 1 1 crescimento
            ([(corte, 5)] ++ [(crescimento_ou_corte, v)])).
Proof.
  apply (@X5_vale_nunca_e_saltado [5; 15] [10; 20]
           (mkEstado 1 0 pico [(corte, 5)])).
  - apply alcancavel_corpo with (st := estado_inicial);
      [apply alcancavel_inicial | reflexivity | reflexivity].
  - reflexivity.
  - reflexivity.
Defined.

(** X6: with peaks but no valley, the loop does not run and the first
    [if] after it emits one event, at the first peak. *)
Theorem X6_sem_vales_um_corte (p : Z) (picos : list Z) :
  tendencias (p :: picos) [] = Ok [(corte, p)].
Proof.
  unfold tendencias. rewrite laco_eq. reflexivity.
Qed.

End OrdemTeoremas.

(** ** The markers of the plot (lines 131-143) *)

Module Grafico.

Import Sequenciador.
Import String.StringSyntax.

(** One call of [plt.axvline]. *)
Record Axvline : Type := mkAxvline {
  x : Z;                       (* the date of the row *)
  color : String.string;
  linestyle : String.string;
  linewidth : float;
  label : String.string
}.

(** [s.iloc[k]]: a position counted from the start, or from the end when
    it is negative; outside the series it raises [IndexError]. *)
Definition iloc {A : Type} (s : list A) (k : Z) : Resultado A :=
  if (0 <=? k)%Z then item s (Z.to_nat k)
  else if (- Z.of_nat (length s) <=? k)%Z
       then item s (Z.to_nat (Z.of_nat (length s) + k))
       else IndexError.

Section Laco.

Local Open Scope string_scope.

(** The dates of the filtered frame, [df_filtrado['Data']]. *)
Variable datas : list Z.

(** The loop over [tendencias_filtradas]; the two flags say whether each
    legend entry has been given already. *)
Fixpoint marcar (legenda_crescimento_corte_adicionada legenda_pico_adicionada : bool)
  (t : list Tendencia) : Resultado (list Axvline) :=
  match t with
  | [] => Ok []
  | (crescimento_ou_corte, tendencia) :: r =>
      d <- iloc datas tendencia ;;
      resto <- marcar true legenda_pico_adicionada r ;;
      Ok (mkAxvline d "purple" "--" 1.5%float
            (if negb legenda_crescimento_corte_adicionada
             then "Crescimento ou Corte" else String.EmptyString)
          :: resto)
  | (corte, tendencia) :: r =>
      d <- iloc datas tendencia ;;
      resto <- marcar legenda_crescimento_corte_adicionada true r ;;
      Ok (mkAxvline d "red" "-." 1.5%float
            (if negb legenda_pico_adicionada then "Pico" else String.EmptyString)
          :: resto)
  end.

(** Lines 132-143, from the two flags set to [False]. *)
Definition marcar_tendencias (t : list Tendencia) : Resultado (list Axvline) :=
  marcar false false t.

(** What line 134 or 138 may give a call as its label: the legend text of
    its own kind of event, or the empty string. *)
Definition rotulo_da_linha (e : Tendencia) (l : Axvline) : Prop :=
  label l = String.EmptyString \/
  (fst e = corte /\ label l = "Pico") \/
  (fst e = crescimento_ou_corte /\ label l = "Crescimento ou Corte").

(** How many of the calls carry a given legend text. *)
Definition com_legenda (texto : String.string) (ls : list Axvline) : nat :=
  length (filter (fun l => String.eqb (label l) texto) ls).

End Laco.

(** A valid position of a series of [n] rows. *)
Definition posicao_valida (n : nat) (k : Z) : Prop :=
  (0 <= k < Z.of_nat n)%Z.

End Grafico.

Section GraficoFatos.

Import Sequenciador Ordem Grafico.
Import String.StringSyntax.

Local Open Scope string_scope.

Variable datas : list Z.

Lemma iloc_valida (k : Z) :
  posicao_valida (length datas) k ->
  exists d, iloc datas k = Ok d /\ nth_error datas (Z.to_nat k) = Some d.
Proof.
  intros [H0 Hn]. unfold iloc.
  apply Z.leb_le in H0. rewrite H0. apply Z.leb_le in H0.
  unfold item.
  destruct (nth_error datas (Z.to_nat k)) as [d|] eqn:E; [eauto|].
  apply nth_error_None in E. lia.
Qed.

Lemma marcar_length (a b : bool) (t : list Tendencia) (ls : list Axvline) :
  marcar datas a b t = Ok ls -> length ls = length t.
Proof.
  revert a b ls. induction t as [|[[|] k] t IH]; intros a b ls H; simpl in H.
  - inversion H. reflexivity.
  - destruct (iloc datas k); simpl in H; [|discriminate].
    destruct (marcar datas a true t) as [r|] eqn:E; simpl in H; [|discriminate].
    inversion H. simpl. f_equal. eapply IH. exact E.
  - destruct (iloc datas k); simpl in H; [|discriminate].
    destruct (marcar datas true b t) as [r|] eqn:E; simpl in H; [|discriminate].
    inversion H. simpl. f_equal. eapply IH. exact E.
Qed.

(** The calls that carry each legend text, for any value of the flags. *)
Lemma marcar_legendas (a b : bool) (t : list Tendencia) (ls : list Axvline) :
  marcar datas a b t = Ok ls ->
  com_legenda "Pico" ls
  = (if b then 0 else Nat.min 1 (length (indices_de corte t))) /\
  com_legenda "Crescimento ou Corte" ls
  = (if a then 0 else Nat.min 1 (length (indices_de crescimento_ou_corte t))).
Proof.
  revert a b ls. induction t as [|[[|] k] t IH]; intros a b ls H; simpl in H.
  - inversion H. destruct a, b; split; reflexivity.
  - destruct (iloc datas k); simpl in H; [|discriminate].
    destruct (marcar datas a true t) as [r|] eqn:E; simpl in H; [|discriminate].
    inversion H as [Hls]. destruct (IH _ _ _ E) as [Hp Hc].
    unfold com_legenda, indices_de in *. simpl.
    destruct a, b; simpl; rewrite ?Hp, ?Hc; split; reflexivity.
  - destruct (iloc datas k); simpl in H; [|discriminate].
    destruct (marcar datas true b t) as [r|] eqn:E; simpl in H; [|discriminate].
    inversion H as [Hls]. destruct (IH _ _ _ E) as [Hp Hc].
    unfold com_legenda, indices_de in *. simpl.
    destruct a, b; simpl; rewrite ?Hp, ?Hc; split; reflexivity.
Qed.

Lemma marcar_rotulos (a b : bool) (t : list Tendencia) (ls : list Axvline) :
  marcar datas a b t = Ok ls -> Forall2 rotulo_da_linha t ls.
Proof.
  revert a b ls. induction t as [|[[|] k] t IH]; intros a b ls H; simpl in H.
  - inversion H. constructor.
  - destruct (iloc datas k); simpl in H; [|discriminate].
    destruct (marcar datas a true t) as [r|] eqn:E; simpl in H; [|discriminate].
    inversion H. constructor; [|eapply IH; exact E].
    unfold rotulo_da_linha. simpl. destruct b; simpl; auto.
  - destruct (iloc datas k); simpl in H; [|discriminate].
    destruct (marcar datas true b t) as [r|] eqn:E; simpl in H; [|discriminate].
    inversion H. constructor; [|eapply IH; exact E].
    unfold rotulo_da_linha. simpl. destruct a; simpl; auto.
Qed.

(** The three label texts split the calls. *)
Lemma legendas_particao (t : list Tendencia) (ls : list Axvline) :
  Forall2 rotulo_da_linha t ls ->
  com_legenda String.EmptyString ls + com_legenda "Pico" ls
  + com_legenda "Crescimento ou Corte" ls = length ls.
Proof.
  unfold com_legenda.
  induction 1 as [|e l t' ls' Hl _ IH]; [reflexivity|].
  cbn [filter length].
  destruct Hl as [Hl|[[_ Hl]|[_ Hl]]]; rewrite Hl; simpl; lia.
Qed.

(** With valid positions only, no read of a date fails, and each call is
    placed at the date of its event. *)
Lemma marcar_valido (a b : bool) (t : list Tendencia) :
  Forall (posicao_valida (length datas)) (map snd t) ->
  exists ls, marcar datas a b t = Ok ls /\
             map (fun l => Some (x l)) ls
             = map (fun e => nth_error datas (Z.to_nat (snd e))) t.
Proof.
  revert a b. induction t as [|[r k] t IH]; intros a b Hv; simpl.
  - eexists; split; reflexivity.
  - simpl in Hv. apply Forall_cons_iff in Hv. destruct Hv as [Hk Hv].
    destruct (iloc_valida Hk) as (d & Ed & Hd).
    destruct r; rewrite Ed; simpl.
    + destruct (IH a true Hv) as (ls & El & Hx). rewrite El. simpl.
      eexists; split; [reflexivity|]. simpl. rewrite Hd, Hx. reflexivity.
    + destruct (IH true b Hv) as (ls & El & Hx). rewrite El. simpl.
      eexists; split; [reflexivity|]. simpl. rewrite Hd, Hx. reflexivity.
Qed.

End GraficoFatos.

Section GraficoTeoremas.

Import Sequenciador Ordem Grafico.
Import String.StringSyntax.

Local Open Scope string_scope.

Lemma indices_de_In (r : Rotulo) (k : Z) (t : list Tendencia) :
  In (r, k) t -> In k (indices_de r t).
Proof.
  intros H. unfold indices_de. apply in_map_iff. exists (r, k).
  split; [reflexivity|]. apply filter_In. split; [exact H|].
  apply eqb_rotulo_refl.
Qed.

(** Every index of the result is a peak of [picos] or a valley of
    [vales]. *)
Lemma tendencias_indices (picos vales : list Z) (P : Z -> Prop) :
  Forall P picos -> Forall P vales ->
  exists evs, tendencias picos vales = Ok evs /\ Forall P (map snd evs).
Proof.
  intros Hp Hv.
  destruct (tendencias_ordenado picos vales) as (evs & E & [n Hn] & Hs & _).
  exists evs. split; [exact E|].
  rewrite Forall_forall in *. intros k Hk.
  apply in_map_iff in Hk. destruct Hk as ([r k'] & Ek & Hin).
  simpl in Ek. subst k'. apply indices_de_In in Hin. destruct r.
  - apply Hp. exact (subsequencia_In k Hs Hin).
  - apply Hv. rewrite Hn in Hin.
    refine (subsequencia_In k _ Hin).
    apply subsequencia_firstn with (k := n). apply subsequencia_refl.
Qed.

(** X7: when the marker loop completes, it has drawn one line per event,
    and each legend text is given to one line only: "Pico" to exactly one
    line when there is a peak event (to none otherwise), and "Crescimento
    ou Corte" to exactly one line when there is a valley event; every
    line has the legend text of its own kind of event or the empty label,
    and all the lines but those one or two have the empty label. *)
Theorem X7_legenda_uma_vez (datas : list Z) (t : list Tendencia)
    (ls : list Axvline) :
  marcar_tendencias datas t = Ok ls ->
  length ls = length t /\
  com_legenda "Pico" ls = Nat.min 1 (length (indices_de corte t)) /\
  com_legenda "Crescimento ou Corte" ls
  = Nat.min 1 (length (indices_de crescimento_ou_corte t)) /\
  Forall2 rotulo_da_linha t ls /\
  com_legenda String.EmptyString ls
  = length t - Nat.min 1 (length (indices_de corte t))
    - Nat.min 1 (length (indices_de crescimento_ou_corte t)).
Proof.
  unfold marcar_tendencias. intros H.
  pose proof (marcar_length _ _ _ _ H) as Hlen.
  destruct (marcar_legendas _ _ _ _ H) as [Hp Hc].
  pose proof (marcar_rotulos _ _ _ _ H) as Hr.
  pose proof (legendas_particao Hr) as Hs.
  split; [exact Hlen|]. split; [exact Hp|]. split; [exact Hc|].
  split; [exact Hr|]. lia.
Qed.

Lemma X7_legenda_uma_vez_witness :
  let ls := [mkAxvline 100 "red" "-." 1.5%float "Pico";
             mkAxvline 101 "purple" "--" 1.5%float "Crescimento ou Corte";
             mkAxvline 102 "red" "-." 1.5%float String.EmptyString] in
  let t := [(corte, 0%Z); (crescimento_ou_corte, 1%Z); (corte, 2%Z)] in
  length ls = length t /\
  com_legenda "Pico" ls = Nat.min 1 (length (indices_de corte t)) /\
  com_legenda "Crescimento ou Corte" ls
  = Nat.min 1 (length (indices_de crescimento_ou_corte t)) /\
  Forall2 rotulo_da_linha t ls /\
  com_legenda String.EmptyString ls
  = length t - Nat.min 1 (length (indices_de corte t))
    - Nat.min 1 (length (indices_de crescimento_ou_corte t)).
Proof.
  apply (@X7_legenda_uma_vez [100; 101; 102]%Z). reflexivity.
Defined.

(** X8: when every peak and valley index is a valid row position of the
    filtered frame, the sequencer and the marker loop both complete (no
    [IndexError]), and each line is drawn at the date of the row its event
    points to. *)
Theorem X8_marcadores_em_datas_validas (datas picos vales : list Z) :
  Forall (posicao_valida (length datas)) picos ->
  Forall (posicao_valida (length datas)) vales ->
  exists evs ls,
    tendencias picos vales = Ok evs /\
    marcar_tendencias datas evs = Ok ls /\
    map (fun l => Some (x l)) ls
    = map (fun e => nth_error datas (Z.to_nat (snd e))) evs.
Proof.
  intros Hp Hv.
  destruct (tendencias_indices Hp Hv) as (evs & E & Hval).
  destruct (marcar_valido datas false false evs Hval) as (ls & El & Hx).
  exists evs, ls. repeat split; assumption.
Qed.

Lemma X8_marcadores_em_datas_validas_witness :
  exists evs ls,
    tendencias [0; 2]%Z [1; 3]%Z = Ok evs /\
    marcar_tendencias [100; 101; 102; 103]%Z evs = Ok ls /\
    map (fun l => Some (x l)) ls
    = map (fun e => nth_error [100; 101; 102; 103]%Z (Z.to_nat (snd e))) evs.
Proof.
  apply X8_marcadores_em_datas_validas;
    repeat constructor; unfold posicao_valida; simpl; lia.
Defined.

End GraficoTeoremas.

(** ** The deviation test on special values *)

Section DesvioFatos.

Open Scope float_scope.

Lemma Prim2SF_nan (v : float) : Prim2SF v = S754_nan -> v = nan.
Proof. intros H. apply Prim2SF_inj. rewrite H. reflexivity. Qed.

(** A value that is [NaN] fails the test, and so does any value whose
    predecessor is [NaN]. *)
Lemma desvio_de_nan (T anterior : float) :
  (desvio_percentual anterior nan <=? T) = false.
Proof.
  unfold desvio_percentual.
  rewrite leb_spec, mul_spec, div_spec, abs_spec, sub_spec.
  reflexivity.
Qed.

Lemma desvio_contra_nan (T atual : float) :
  (desvio_percentual nan atual <=? T) = false.
Proof.
  unfold desvio_percentual.
  rewrite leb_spec, mul_spec, div_spec, abs_spec, sub_spec.
  change (Prim2SF nan) with S754_nan.
  destruct (Prim2SF atual); reflexivity.
Qed.

(** A value that follows [+0] fails the test with the limit of the run:
    the division by zero gives [+inf] or [NaN]. *)
Lemma desvio_contra_zero (atual : float) :
  (desvio_percentual 0 atual <=? limite_desvio) = false.
Proof.
  unfold desvio_percentual.
  rewrite leb_spec, mul_spec, div_spec, abs_spec, sub_spec.
  change (Prim2SF 0) with (S754_zero false).
  destruct (Prim2SF atual) as [[|]| [|]| |s m e]; reflexivity.
Qed.

Lemma finito_nao_zero (v : float) :
  is_finite v = true -> is_zero v = false ->
  exists s m e, Prim2SF v = S754_finite s m e.
Proof.
  unfold is_finite, is_nan, is_infinity, is_zero.
  rewrite !eqb_spec, abs_spec.
  destruct (Prim2SF v) as [s| s| |s m e]; intros Hf Hz.
  - destruct s; discriminate.
  - destruct s; discriminate.
  - discriminate.
  - eauto.
Qed.

(** A finite value other than zero passes the test against itself. *)
Lemma desvio_de_si_mesmo (v : float) :
  is_finite v = true -> is_zero v = false ->
  (desvio_percentual v v <=? limite_desvio) = true.
Proof.
  intros Hf Hz. destruct (finito_nao_zero Hf Hz) as (s & m & e & E).
  unfold desvio_percentual.
  rewrite leb_spec, mul_spec, div_spec, abs_spec, sub_spec, E.
  unfold SF64sub, SFsub. cbv zeta. rewrite Z.sub_diag.
  destruct s; reflexivity.
Qed.

End DesvioFatos.

(** ** What the extremum detector is given (lines 96-97) *)

Section EntradaDoDetector.

Open Scope float_scope.

(** [s.fillna(valor)] *)
Definition fillna (valor : float) (c : list float) : list float :=
  map (fun v => if is_nan v then valor else v) c.

(** The two series passed to [find_peaks]: the smoothed column with its
    undefined entries put to zero, and its negation. *)
Definition entrada_picos (t : Tabelas) : list float :=
  fillna 0 (NDVI_Suavizado t).

Definition entrada_vales (t : Tabelas) : list float :=
  map PrimFloat.opp (fillna 0 (NDVI_Suavizado t)).

End EntradaDoDetector.

Section FiltroExtras.

Import Ordem.

Open Scope float_scope.

Lemma filtrar_desvios_In (T : float) (df : DataFrame) (r : Linha) :
  In r (filtrar_desvios T df) ->
  exists p, In p (posicoes_retidas T df) /\ nth_error df p = Some r.
Proof.
  intros H. apply (in_map Some) in H.
  unfold filtrar_desvios in H.
  rewrite (selecionar_posicoes _ _ 0 (mascara_desvio_length T df)) in H.
  apply in_map_iff in H. destruct H as (p & Hp & Hin).
  rewrite Nat.sub_0_r in Hp. exists p. split; [exact Hin | exact Hp].
Qed.

Lemma subsequencia_nil_l (A : Type) (l : list A) : subsequencia [] l.
Proof. induction l; constructor; assumption. Qed.

Lemma selecionar_subsequencia (A : Type) (m : list bool) (l : list A) :
  subsequencia (Coluna.selecionar m l) l.
Proof.
  revert l. induction m as [|b m IH]; intros [|y l]; simpl;
    try apply subsequencia_nil_l.
  destruct b; constructor; apply IH.
Qed.

Lemma subsequencia_length (A : Type) (a b : list A) :
  subsequencia a b -> (length a <= length b)%nat.
Proof. induction 1; simpl; lia. Qed.

Lemma subsequencia_StronglySorted (A : Type) (R : A -> A -> Prop)
    (a b : list A) :
  subsequencia a b -> StronglySorted R b -> StronglySorted R a.
Proof.
  induction 1 as [|y a b Hs IH|y a b Hs IH]; intros Hb.
  - constructor.
  - apply StronglySorted_inv in Hb. destruct Hb as [Hb Hy].
    constructor; [auto|]. apply Forall_forall. intros z Hz.
    rewrite Forall_forall in Hy. apply Hy.
    apply (subsequencia_In z Hs Hz).
  - apply StronglySorted_inv in Hb. destruct Hb as [Hb _]. auto.
Qed.

(** The filtered frame leaves out at least the first row. *)
Lemma filtrar_desvios_length (T : float) (x : Linha) (r : DataFrame) :
  (length (filtrar_desvios T (x :: r)) <= length r)%nat.
Proof.
  unfold filtrar_desvios. rewrite mascara_desvio_cons. simpl.
  apply subsequencia_length, selecionar_subsequencia.
Qed.

Lemma mascara_desde_constante (T v : float) (r : DataFrame) :
  (desvio_percentual v v <=? T) = true ->
  Forall (fun l => Media_NDVI l = v) r ->
  mascara_desde T v r = map (fun _ => true) r.
Proof.
  intros Hv. induction 1 as [|y r Hy Hr IH]; simpl; [reflexivity|].
  rewrite Hy, Hv, IH. reflexivity.
Qed.

Lemma selecionar_todos (A : Type) (l : list A) :
  Coluna.selecionar (map (fun _ => true) l) l = l.
Proof. induction l as [|y l IH]; simpl; [|rewrite IH]; reflexivity. Qed.

(** X9: the filtered frame never holds a row whose mean is [NaN], and
    never a row that comes right after one in the sorted series, whatever
    the threshold. *)
Theorem X9_filtrado_sem_NaN (T : float) (df : DataFrame) :
  Forall (fun r => Media_NDVI r <> nan) (filtrar_desvios T df) /\
  forall k anterior,
    nth_error df k = Some anterior -> Media_NDVI anterior = nan ->
    ~ In (S k) (posicoes_retidas T df).
Proof.
  split.
  - apply Forall_forall. intros r Hr.
    destruct (filtrar_desvios_In _ _ _ Hr) as (p & Hp & Er).
    destruct (posicao_retida _ _ _ Hp) as (k & a & b & _ & _ & Eb & Hle).
    assert (b = r) by congruence. subst b. intros Hnan.
    rewrite Hnan, desvio_de_nan in Hle. discriminate.
  - intros k anterior Ek Hnan Hin.
    destruct (posicao_retida _ _ _ Hin) as (k' & a & b & Ep & Ea & _ & Hle).
    injection Ep as <-. assert (a = anterior) by congruence. subst a.
    rewrite Hnan, desvio_contra_nan in Hle. discriminate.
Qed.

(** X10: on a series that repeats one finite value other than zero, the
    filter of the run keeps every row but the first. *)
Theorem X10_serie_constante (v : float) (df : DataFrame) :
  is_finite v = true -> is_zero v = false ->
  Forall (fun r => Media_NDVI r = v) df ->
  filtrar_desvios limite_desvio df = tl df.
Proof.
  intros Hf Hz Hdf. destruct df as [|x r]; [reflexivity|].
  apply Forall_cons_iff in Hdf. destruct Hdf as [Hx Hr].
  unfold filtrar_desvios. rewrite mascara_desvio_cons, Hx. simpl.
  rewrite (mascara_desde_constante (desvio_de_si_mesmo Hf Hz) Hr).
  apply selecionar_todos.
Qed.

Lemma X10_serie_constante_witness :
  filtrar_desvios limite_desvio [linha 1 0.5; linha 2 0.5; linha 3 0.5]
  = tl [linha 1 0.5; linha 2 0.5; linha 3 0.5].
Proof.
  apply (@X10_serie_constante 0.5);
    [reflexivity | reflexivity | repeat constructor].
Defined.

(** X11: a row that comes right after a mean of exactly [+0] is never
    kept by the filter of the run, whatever its own value: the division by
    zero gives an infinite or undefined deviation. *)
Theorem X11_depois_de_zero (df : DataFrame) (k : nat) (anterior : Linha) :
  nth_error df k = Some anterior -> Media_NDVI anterior = 0 ->
  ~ In (S k) (posicoes_retidas limite_desvio df).
Proof.
  intros Ek Hz Hin.
  destruct (posicao_retida _ _ _ Hin) as (k' & a & b & Ep & Ea & _ & Hle).
  injection Ep as <-. assert (a = anterior) by congruence. subst a.
  rewrite Hz, desvio_contra_zero in Hle. discriminate.
Qed.

Lemma X11_depois_de_zero_witness :
  ~ In 1%nat (posicoes_retidas limite_desvio
                [linha 1 0; linha 2 0.5; linha 3 0.5]).
Proof.
  apply (@X11_depois_de_zero _ 0%nat (linha 1 0)); reflexivity.
Defined.

End FiltroExtras.

(** ** The tables as a whole *)

Section TabelasExtras.

Import Ordem.

Open Scope float_scope.

Lemma todos_iguais (A : Type) (l : list A) (v : A) :
  (forall k, (k < length l)%nat -> nth_error l k = Some v) ->
  l = repeat v (length l).
Proof.
  induction l as [|y l IH]; intros H; [reflexivity|].
  simpl. f_equal.
  - specialize (H 0%nat). simpl in H. assert (Some y = Some v) by (apply H; lia).
    congruence.
  - apply IH. intros k Hk. apply (H (S k)). simpl. lia.
Qed.

(** A series shorter than the window has no defined smoothed value. *)
Lemma rolling_mean_center_curta (W : nat) (c : list float) :
  (length c < W)%nat ->
  rolling_mean_center W c = repeat nan (length c).
Proof.
  intros Hc. rewrite <- (rolling_mean_center_length W c).
  apply todos_iguais. rewrite rolling_mean_center_length. intros k Hk.
  apply rolling_mean_center_poucas; [exact Hk|].
  pose proof (filter_length_le is_finite (janela_em W c k)) as Hf.
  unfold janela_em in *. rewrite fatia_length in Hf. lia.
Qed.

Lemma fillna_repeat_nan (valor : float) (n : nat) :
  fillna valor (repeat nan n) = repeat valor n.
Proof. unfold fillna. rewrite map_repeat. reflexivity. Qed.

Lemma tabelas_inr (dados : list Linha) (t : Tabelas) :
  tabelas dados = inr t ->
  df t = sort_values dados /\
  df_filtrado t = filtrar_desvios limite_desvio (sort_values dados) /\
  NDVI_Suavizado t
  = rolling_mean_center janela_suavizacao (coluna_Media_NDVI (df_filtrado t)) /\
  df_filtrado t <> [].
Proof.
  unfold tabelas. destruct dados as [|x r]; [discriminate|].
  destruct (filtrar_desvios limite_desvio (sort_values (x :: r))) eqn:E;
    [discriminate|].
  intros H. inversion H. simpl. repeat split. discriminate.
Qed.

(** X12: when the run gets past the filter, the full table is the input
    in ascending date order; the filtered table is not empty, has fewer
    rows than the input, holds rows of the input only, is in ascending
    date order too, and has one smoothed value per row. *)
Theorem X12_forma_das_tabelas (dados : list Linha) (t : Tabelas) :
  tabelas dados = inr t ->
  Permutation dados (df t) /\
  StronglySorted data_le (df t) /\
  df_filtrado t <> [] /\
  (length (df_filtrado t) < length dados)%nat /\
  incl (df_filtrado t) dados /\
  StronglySorted data_le (df_filtrado t) /\
  length (NDVI_Suavizado t) = length (df_filtrado t).
Proof.
  intros H. destruct (tabelas_inr _ H) as (Edf & Ef & Es & Hne).
  pose proof (sort_values_Permutation dados) as Hperm.
  pose proof (sort_values_ordenado dados) as Hord.
  assert (Hsub : subsequencia (df_filtrado t) (sort_values dados)).
  { rewrite Ef. apply selecionar_subsequencia. }
  rewrite Edf. repeat split; try assumption.
  - rewrite (Permutation_length Hperm), Ef.
    destruct (sort_values dados) as [|x r] eqn:E.
    + rewrite Ef in Hne. exfalso. apply Hne. reflexivity.
    + pose proof (filtrar_desvios_length limite_desvio x r). simpl. lia.
  - intros r Hr. apply (Permutation_in r (Permutation_sym Hperm)).
    exact (subsequencia_In r Hsub Hr).
  - exact (subsequencia_StronglySorted Hsub Hord).
  - rewrite Es, rolling_mean_center_length.
    unfold coluna_Media_NDVI. apply length_map.
Qed.

Lemma X12_forma_das_tabelas_witness :
  let dados := [linha 3 0.5; linha 1 0.5; linha 2 0.75] in
  let t := mkTabelas [linha 1 0.5; linha 2 0.75; linha 3 0.5]
                     [linha 2 0.75; linha 3 0.5] [nan; nan] in
  Permutation dados (df t) /\
  StronglySorted data_le (df t) /\
  df_filtrado t <> [] /\
  (length (df_filtrado t) < length dados)%nat /\
  incl (df_filtrado t) dados /\
  StronglySorted data_le (df_filtrado t) /\
  length (NDVI_Suavizado t) = length (df_filtrado t).
Proof.
  apply X12_forma_das_tabelas. reflexivity.
Defined.

(** X13: a series of one observation never gets past the filter: its
    only row is dropped and the run stops with the error of line 79. *)
Theorem X13_uma_observacao (l : Linha) :
  tabelas [l] = inl NenhumDadoRestante.
Proof.
  unfold tabelas. change (sort_values [l]) with [l].
  unfold filtrar_desvios. rewrite mascara_desvio_cons. reflexivity.
Qed.

(** X14: with at most nine observations the run has no defined smoothed
    value: the smoothed column is all [NaN], and the detector is given a
    series of zeros for the peaks and of negated zeros for the valleys. *)
Theorem X14_poucas_observacoes (dados : list Linha) (t : Tabelas) :
  tabelas dados = inr t -> (length dados <= 9)%nat ->
  NDVI_Suavizado t = repeat nan (length (df_filtrado t)) /\
  entrada_picos t = repeat 0 (length (df_filtrado t)) /\
  entrada_vales t = repeat (-0) (length (df_filtrado t)).
Proof.
  intros H Hn. destruct (tabelas_inr _ H) as (Edf & Ef & Es & Hne).
  assert (Hlen : (length (df_filtrado t) < janela_suavizacao)%nat).
  { pose proof (Permutation_length (sort_values_Permutation dados)) as Hp.
    rewrite Ef. destruct (sort_values dados) as [|x r] eqn:E.
    - rewrite Ef in Hne. exfalso. apply Hne. reflexivity.
    - pose proof (filtrar_desvios_length limite_desvio x r).
      unfold janela_suavizacao. simpl in Hp. lia. }
  assert (Hs : NDVI_Suavizado t = repeat nan (length (df_filtrado t))).
  { rewrite Es, rolling_mean_center_curta;
      unfold coluna_Media_NDVI; rewrite length_map; [reflexivity | exact Hlen]. }
  unfold entrada_vales, entrada_picos. rewrite Hs, fillna_repeat_nan.
  repeat split. apply map_repeat.
Qed.

Lemma X14_poucas_observacoes_witness :
  let t := mkTabelas [linha 1 0.5; linha 2 0.75; linha 3 0.5]
                     [linha 2 0.75; linha 3 0.5] [nan; nan] in
  NDVI_Suavizado t = repeat nan (length (df_filtrado t)) /\
  entrada_picos t = repeat 0 (length (df_filtrado t)) /\
  entrada_vales t = repeat (-0) (length (df_filtrado t)).
Proof.
  apply (@X14_poucas_observacoes
           [linha 3 0.5; linha 1 0.5; linha 2 0.75]);
    [reflexivity | simpl; lia].
Defined.

End TabelasExtras.

(** ** The date text of a file name (line 45) *)

Module Nomes.

Import Sequenciador.
Import Ascii String.StringSyntax.

Local Open Scope string_scope.

(** Whether a character occurs in a text. *)
Fixpoint contem (c : Ascii.ascii) (s : String.string) : bool :=
  match s with
  | String.EmptyString => false
  | String.String a r => Ascii.eqb a c || contem c r
  end.

(** [s.split(sep)] for a separator of one character: the pieces between
    the separators, one more than there are separators. *)
Fixpoint split (sep : Ascii.ascii) (s : String.string) : list String.string :=
  match s with
  | String.EmptyString => [String.EmptyString]
  | String.String a r =>
      if Ascii.eqb a sep then String.EmptyString :: split sep r
      else match split sep r with
           | p :: ps => String.String a p :: ps
           | [] => [String.String a String.EmptyString]
           end
  end.

(** [s.replace(old, '')] for a non-empty [old]: the occurrences of [old]
    are taken out from left to right, without overlap.  [saltar] counts
    the characters of an occurrence that are still to be passed over. *)
Fixpoint remover_desde (old : String.string) (saltar : nat) (s : String.string) : String.string :=
  match s with
  | String.EmptyString => String.EmptyString
  | String.String a r =>
      match saltar with
      | S k => remover_desde old k r
      | O =>
          if String.prefix old s
          then remover_desde old (String.length old - 1) r
          else String.String a (remover_desde old 0 r)
      end
  end.

Definition remover (old : String.string) (s : String.string) : String.string :=
  remover_desde old 0 s.

(** [nome.split('_')[1].replace('Z.tif', '')] on the base name of the
    file; a name without underscore raises [IndexError], which line 47
    catches to skip the file. *)
Definition data_str (nome : String.string) : Resultado String.string :=
  parte <- item (split "_"%char nome) 1 ;;
  Ok (remover "Z.tif" parte).

End Nomes.

(** ** The date text of a combined image (3_Combination.py, lines 148-155) *)

Module Combinacao.

Import Sequenciador Nomes.
Import Ascii String.StringSyntax.

Local Open Scope string_scope.

(** [nome.split('_')[1].split('Z')[0]], and "Data desconhecida" when a
    read raises [IndexError]. *)
Definition extrair_data_do_nome_arquivo (nome : String.string) : String.string :=
  match (parte <- item (split "_"%char nome) 1 ;;
         item (split "Z"%char parte) 0) with
  | Ok data => data
  | IndexError => "Data desconhecida"
  end.

End Combinacao.

Section NomesFatos.

Import Sequenciador Nomes Combinacao.
Import Ascii String.StringSyntax.

Local Open Scope string_scope.

Lemma split_cons (sep : Ascii.ascii) (s : String.string) :
  exists p ps, split sep s = p :: ps.
Proof.
  induction s as [|a r IH]; simpl; [eauto|].
  destruct (Ascii.eqb a sep); [eauto|].
  destruct IH as (p & ps & ->). eauto.
Qed.

Lemma append_vazio (s : String.string) :
  String.append s String.EmptyString = s.
Proof. induction s as [|a r IH]; simpl; [|rewrite IH]; reflexivity. Qed.

(** A text without the separator in front of another: its pieces are
    those of the other text, the first one lengthened. *)
Lemma split_append (sep : Ascii.ascii) (a b : String.string) :
  contem sep a = false ->
  split sep (String.append a b)
  = String.append a (hd String.EmptyString (split sep b))
    :: tl (split sep b).
Proof.
  induction a as [|c a IH]; simpl; intros H.
  - destruct (split_cons sep b) as (p & ps & ->). reflexivity.
  - apply orb_false_elim in H. destruct H as [Hc Ha].
    rewrite Hc, (IH Ha). reflexivity.
Qed.

Lemma split_sem_separador (sep : Ascii.ascii) (s : String.string) :
  contem sep s = false -> split sep s = [s].
Proof.
  intros H. rewrite <- (append_vazio s) at 1.
  rewrite split_append by exact H. simpl. rewrite append_vazio. reflexivity.
Qed.

Lemma split_com_separador (sep : Ascii.ascii) (s : String.string) :
  contem sep s = true -> exists a b ps, split sep s = a :: b :: ps.
Proof.
  induction s as [|c r IH]; simpl; [discriminate|]. intros H.
  destruct (Ascii.eqb c sep).
  - destruct (split_cons sep r) as (p & ps & ->). eauto.
  - simpl in H. destruct (IH H) as (a & b & ps & ->). eauto.
Qed.

Lemma remover_sufixo (d : String.string) :
  contem "Z"%char d = false ->
  remover "Z.tif" (String.append d "Z.tif") = d.
Proof.
  unfold remover. induction d as [|c r IH]; intros H.
  - reflexivity.
  - cbn [contem] in H. apply orb_false_elim in H. destruct H as [Hc Hr].
    cbn [String.append remover_desde String.prefix].
    destruct (Ascii.ascii_dec "Z"%char c) as [E|_].
    + subst c. rewrite Ascii.eqb_refl in Hc. discriminate.
    + rewrite (IH Hr). reflexivity.
Qed.

(** X15: the date text of a file name cannot be read exactly when the
    name holds no underscore; the file is then skipped. *)
Theorem X15_nome_sem_sublinhado (nome : String.string) :
  data_str nome = IndexError <-> contem "_"%char nome = false.
Proof.
  unfold data_str. split.
  - intros H. destruct (contem "_"%char nome) eqn:E; [|reflexivity].
    destruct (split_com_separador _ _ E) as (a & b & ps & Es).
    rewrite Es in H. discriminate.
  - intros H. rewrite split_sem_separador by exact H. reflexivity.
Qed.

(** X16: for a name made of a prefix, an underscore, a date text and the
    ending [Z.tif], where neither the prefix nor the date text holds an
    underscore and the date text holds no [Z], the date text is
    recovered. *)
Theorem X16_nome_com_data (prefixo d : String.string) :
  contem "_"%char prefixo = false ->
  contem "_"%char d = false ->
  contem "Z"%char d = false ->
  data_str (String.append prefixo
              (String.String "_"%char (String.append d "Z.tif")))
  = Ok d.
Proof.
  intros Hp Hd HZ. unfold data_str.
  rewrite split_append by exact Hp. simpl.
  rewrite split_append by exact Hd. simpl.
  unfold item. simpl. rewrite remover_sufixo by exact HZ. reflexivity.
Qed.

Lemma X16_nome_com_data_witness :
  data_str "openEO_2023-01-05Z.tif" = Ok "2023-01-05".
Proof.
  apply (@X16_nome_com_data "openEO" "2023-01-05"); reflexivity.
Defined.

(** X17: [extrair_data_do_nome_arquivo] returns what stands between the
    first underscore and the first [Z] after it, whatever follows that
    [Z]; it never raises. *)
Theorem X17_data_do_nome_combinado (prefixo d resto : String.string) :
  contem "_"%char prefixo = false ->
  contem "_"%char d = false ->
  contem "Z"%char d = false ->
  extrair_data_do_nome_arquivo
    (String.append prefixo
       (String.String "_"%char
          (String.append d (String.String "Z"%char resto))))
  = d.
Proof.
  intros Hp Hd HZ. unfold extrair_data_do_nome_arquivo.
  rewrite split_append by exact Hp. simpl.
  rewrite split_append by exact Hd. simpl.
  destruct (split_cons "_"%char resto) as (p & ps & ->). simpl.
  unfold item. simpl.
  rewrite split_append by exact HZ. simpl. rewrite append_vazio. reflexivity.
Qed.

Lemma X17_data_do_nome_combinado_witness :
  extrair_data_do_nome_arquivo "openEO_2023-01-05Z_rgb.png" = "2023-01-05".
Proof.
  apply (@X17_data_do_nome_combinado "openEO" "2023-01-05" "_rgb.png");
    reflexivity.
Defined.

(** X18: for a name without underscore [extrair_data_do_nome_arquivo]
    catches the [IndexError] and returns "Data desconhecida". *)
Theorem X18_nome_combinado_sem_sublinhado (nome : String.string) :
  contem "_"%char nome = false ->
  extrair_data_do_nome_arquivo nome = "Data desconhecida".
Proof.
  intros H. unfold extrair_data_do_nome_arquivo.
  rewrite split_sem_separador by exact H. reflexivity.
Qed.

Lemma X18_nome_combinado_sem_sublinhado_witness :
  extrair_data_do_nome_arquivo "imagem.png" = "Data desconhecida".
Proof.
  apply X18_nome_combinado_sem_sublinhado. reflexivity.
Defined.

End NomesFatos.

(** ** Paired extrema, and a valley ahead of every peak *)

Module Pares.

Import Sequenciador.

(** The events of a list of (peak, valley) pairs, pair after pair. *)
Definition intercalar (pares : list (Z * Z)) : list Tendencia :=
  flat_map (fun pv => [(corte, fst pv); (crescimento_ou_corte, snd pv)]) pares.

(** The loop followed by the two [if]s, from any state. *)
Definition concluir (picos vales : list Z) (st : Estado)
  : Resultado (list Tendencia) :=
  st' <- laco picos vales st ;; remanescentes picos vales st'.

End Pares.

Section ParesFatos.

Import Sequenciador Pares.

Open Scope Z_scope.

Lemma intercalar_firstn_S (pares : list (Z * Z)) (n : nat) (p v : Z) :
  nth_error pares n = Some (p, v) ->
  intercalar (firstn (S n) pares)
  = intercalar (firstn n pares) ++ [(corte, p); (crescimento_ou_corte, v)].
Proof.
  intros H. rewrite (firstn_S_nth_error _ _ H).
  unfold intercalar. rewrite flat_map_app. simpl. reflexivity.
Qed.

Variable pares : list (Z * Z).

Hypothesis pico_antes_do_vale : Forall (fun pv => fst pv < snd pv) pares.

(** From the state reached after [n] complete pairs, the run emits the
    remaining pairs. *)
Lemma concluir_pares (m n : nat) :
  (S (n + m) = length pares)%nat ->
  concluir (map fst pares) (map snd pares)
    (mkEstado n n crescimento (intercalar (firstn n pares)))
  = Ok (intercalar pares).
Proof.
  revert n. induction m as [|m IH]; intros n Hn.
  - destruct (nth_error pares n) as [[p v]|] eqn:E;
      [|apply nth_error_None in E; lia].
    assert (Hlt : p < v).
    { rewrite Forall_forall in pico_antes_do_vale.
      apply (pico_antes_do_vale (p, v)). eapply nth_error_In. exact E. }
    apply Z.ltb_lt in Hlt.
    unfold concluir. rewrite laco_eq.
    unfold condicao. cbn [i j]. rewrite !length_map.
    replace (n <? length pares)%nat with true
      by (symmetry; apply Nat.ltb_lt; lia).
    cbn [andb]. rewrite corpo_crescimento by reflexivity.
    unfold item. cbn [i j tendencias_filtradas].
    rewrite !nth_error_map, E. cbn [option_map fst snd bind].
    rewrite Hlt. cbn [bind]. rewrite laco_eq.
    unfold condicao. cbn [i j]. rewrite !length_map.
    replace (S n <? length pares)%nat with false
      by (symmetry; apply Nat.ltb_ge; lia).
    cbn [andb bind]. unfold remanescentes.
    cbn [i j sequencia tendencias_filtradas eqb_sequencia].
    rewrite andb_false_r. cbn [bind]. rewrite length_map.
    replace (n <? length pares)%nat with true
      by (symmetry; apply Nat.ltb_lt; lia).
    unfold item. rewrite nth_error_map, E. cbn [andb option_map snd bind].
    pose proof (@intercalar_firstn_S pares n p v E) as Hi.
    rewrite firstn_all2 in Hi by lia.
    rewrite Hi, <- app_assoc. reflexivity.
  - destruct (nth_error pares n) as [[p v]|] eqn:E;
      [|apply nth_error_None in E; lia].
    assert (Hlt : p < v).
    { rewrite Forall_forall in pico_antes_do_vale.
      apply (pico_antes_do_vale (p, v)). eapply nth_error_In. exact E. }
    unfold concluir. rewrite laco_eq.
    unfold condicao. cbn [i j]. rewrite !length_map.
    replace (n <? length pares)%nat with true
      by (symmetry; apply Nat.ltb_lt; lia).
    cbn [andb]. rewrite corpo_crescimento by reflexivity.
    unfold item. cbn [i j tendencias_filtradas].
    rewrite !nth_error_map, E. cbn [option_map fst snd bind].
    apply Z.ltb_lt in Hlt. rewrite Hlt. apply Z.ltb_lt in Hlt.
    cbn [bind]. rewrite laco_eq.
    unfold condicao. cbn [i j]. rewrite !length_map.
    replace (S n <? length pares)%nat with true
      by (symmetry; apply Nat.ltb_lt; lia).
    replace (n <? length pares)%nat with true
      by (symmetry; apply Nat.ltb_lt; lia).
    cbn [andb]. rewrite corpo_pico by reflexivity.
    unfold item. cbn [i j tendencias_filtradas].
    rewrite nth_error_map, E, ultimo_app. cbn [option_map fst snd bind].
    apply Z.gtb_lt in Hlt. rewrite Hlt. cbn [bind].
    pose proof (@intercalar_firstn_S pares n p v E) as Hi.
    replace ((intercalar (firstn n pares) ++ [(corte, p)])
             ++ [(crescimento_ou_corte, v)])
      with (intercalar (firstn (S n) pares))
      by (rewrite Hi, <- app_assoc; reflexivity).
    apply (IH (S n)). lia.
Qed.

End ParesFatos.

Section ValeNaFrente.

Import Sequenciador Pares.

Open Scope Z_scope.

Variables (v : Z) (vales picos : list Z).

Hypothesis vale_na_frente : Forall (fun p => v <= p) picos.

(** While the valley under the cursor is not beyond the peak, the walk
    passes over the peaks one by one and emits nothing. *)
Lemma laco_vale_na_frente (m n : nat) :
  (n + m = length picos)%nat ->
  laco picos (v :: vales) (mkEstado n 0 crescimento [])
  = Ok (mkEstado (length picos) 0 crescimento []).
Proof.
  revert n. induction m as [|m IH]; intros n Hn; rewrite laco_eq;
    unfold condicao; cbn [i j].
  - replace (n <? length picos)%nat with false
      by (symmetry; apply Nat.ltb_ge; lia).
    cbn [andb]. f_equal. f_equal. lia.
  - replace (n <? length picos)%nat with true
      by (symmetry; apply Nat.ltb_lt; lia).
    cbn [andb length Nat.ltb Nat.leb].
    destruct (nth_error picos n) as [p|] eqn:E;
      [|apply nth_error_None in E; lia].
    assert (Hp : (p <? v) = false).
    { apply Z.ltb_ge. rewrite Forall_forall in vale_na_frente.
      apply vale_na_frente. eapply nth_error_In. exact E. }
    rewrite corpo_crescimento by reflexivity.
    unfold item. cbn [i j tendencias_filtradas nth_error].
    rewrite E. cbn [bind]. rewrite Hp. cbn [bind].
    apply IH. lia.
Qed.

End ValeNaFrente.

Section ParesTeoremas.

Import Sequenciador Pares.

Open Scope Z_scope.

(** X19: when the k-th peak comes before the k-th valley for every k, and
    there are as many peaks as valleys, every extremum is emitted: the
    result is peak 0, valley 0, peak 1, valley 1, and so on.  The valleys
    are not compared with the peaks that follow them. *)
Theorem X19_pares_todos_emitidos (pares : list (Z * Z)) :
  Forall (fun pv => fst pv < snd pv) pares ->
  tendencias (map fst pares) (map snd pares) = Ok (intercalar pares).
Proof.
  intros H. destruct pares as [|pv r] eqn:E; [reflexivity|].
  rewrite <- E in *.
  change (tendencias (map fst pares) (map snd pares))
    with (concluir (map fst pares) (map snd pares)
            (mkEstado 0 0 crescimento (intercalar (firstn 0 pares)))).
  apply concluir_pares with (m := length r); [exact H|].
  rewrite E. reflexivity.
Qed.

Lemma X19_pares_todos_emitidos_witness :
  tendencias (map fst [(10, 30); (20, 40)]) (map snd [(10, 30); (20, 40)])
  = Ok (intercalar [(10, 30); (20, 40)]).
Proof.
  apply X19_pares_todos_emitidos. repeat constructor.
Defined.

(** X20: when the first valley is not beyond any peak (as when a sorted
    series of extrema starts with a valley), no event is emitted at all,
    whatever valleys follow. *)
Theorem X20_vale_na_frente_sem_eventos (v : Z) (vales picos : list Z) :
  Forall (fun p => v <= p) picos ->
  tendencias picos (v :: vales) = Ok [].
Proof.
  intros H. unfold tendencias, estado_inicial.
  rewrite (@laco_vale_na_frente v vales picos H (length picos) 0%nat)
    by reflexivity.
  cbn [bind]. unfold remanescentes.
  cbn [i j sequencia tendencias_filtradas eqb_sequencia].
  rewrite Nat.ltb_irrefl, andb_false_r. reflexivity.
Qed.

Lemma X20_vale_na_frente_sem_eventos_witness :
  tendencias [30; 70] (12 :: [50]) = Ok [].
Proof.
  apply X20_vale_na_frente_sem_eventos. repeat constructor; lia.
Defined.

End ParesTeoremas.

(** ** The order of the input rows *)

Section OrdemDaEntrada.

Lemma ordenado_sem_repeticao (l : DataFrame) :
  StronglySorted data_le l -> NoDup (map Data l) ->
  StronglySorted data_lt l.
Proof.
  induction l as [|y r IH]; intros Hs Hn; [constructor|].
  apply StronglySorted_inv in Hs. destruct Hs as [Hr Hy].
  simpl in Hn. apply NoDup_cons_iff in Hn. destruct Hn as [Hnotin Hn].
  constructor; [auto|].
  rewrite Forall_forall in *. intros z Hz.
  specialize (Hy z Hz). unfold data_le, data_lt in *.
  assert (Data y <> Data z).
  { intros E. apply Hnotin. rewrite E. apply in_map. exact Hz. }
  lia.
Qed.

(** Two frames in strictly ascending date order with the same rows are
    the same frame. *)
Lemma ordenados_iguais (a b : DataFrame) :
  StronglySorted data_lt a -> StronglySorted data_lt b ->
  Permutation a b -> a = b.
Proof.
  revert b. induction a as [|y a IH]; intros b Ha Hb Hp.
  - apply Permutation_nil in Hp. subst. reflexivity.
  - destruct b as [|z b].
    + apply Permutation_sym, Permutation_nil in Hp. discriminate.
    + apply StronglySorted_inv in Ha. destruct Ha as [Ha Hy].
      apply StronglySorted_inv in Hb. destruct Hb as [Hb Hz].
      rewrite Forall_forall in Hy, Hz.
      assert (E : y = z).
      { assert (Hyin : In y (z :: b))
          by (apply (Permutation_in y Hp); left; reflexivity).
        assert (Hzin : In z (y :: a))
          by (apply (Permutation_in z (Permutation_sym Hp)); left; reflexivity).
        destruct Hyin as [->|Hyin]; [reflexivity|].
        destruct Hzin as [->|Hzin]; [reflexivity|].
        specialize (Hy z Hzin). specialize (Hz y Hyin).
        unfold data_lt in *. lia. }
      subst z. f_equal. apply IH; try assumption.
      apply Permutation_cons_inv with (a := y). exact Hp.
Qed.

Lemma sort_values_Permutation_igual (a b : DataFrame) :
  Permutation a b -> NoDup (map Data a) ->
  sort_values a = sort_values b.
Proof.
  intros Hp Hn.
  assert (Hab : Permutation (sort_values a) (sort_values b)).
  { rewrite <- (sort_values_Permutation a), <- (sort_values_Permutation b).
    exact Hp. }
  apply ordenados_iguais; [| | exact Hab].
  - apply ordenado_sem_repeticao; [apply sort_values_ordenado|].
    apply (Permutation_NoDup
             (Permutation_map Data (sort_values_Permutation a)) Hn).
  - apply ordenado_sem_repeticao; [apply sort_values_ordenado|].
    refine (Permutation_NoDup (Permutation_map Data _) Hn).
    rewrite <- (sort_values_Permutation b). exact Hp.
Qed.

(** With distinct dates, as one raster per date gives them, every sort
    that orders by date returns the frame of [sort_values], and the run is
    the one of [tabelas]. *)
Lemma ordenar_sem_repeticao (ordenar : DataFrame -> DataFrame)
    (dados : list Linha) :
  ordena_por_data ordenar -> NoDup (map Data dados) ->
  ordenar dados = sort_values dados.
Proof.
  intros Hord Hn. destruct (Hord dados) as [Hp Hs].
  apply ordenados_iguais.
  - apply ordenado_sem_repeticao; [exact Hs|].
    apply (Permutation_NoDup (Permutation_map Data Hp) Hn).
  - apply ordenado_sem_repeticao; [apply sort_values_ordenado|].
    apply (Permutation_NoDup
             (Permutation_map Data (sort_values_Permutation dados)) Hn).
  - rewrite <- Hp. apply sort_values_Permutation.
Qed.

Lemma tabelas_com_sem_repeticao (ordenar : DataFrame -> DataFrame)
    (dados : list Linha) :
  ordena_por_data ordenar -> NoDup (map Data dados) ->
  tabelas_com ordenar dados = tabelas dados.
Proof.
  intros Hord Hn. unfold tabelas_com, tabelas.
  rewrite (@ordenar_sem_repeticao ordenar dados Hord Hn). reflexivity.
Qed.

(** X21: for a series with distinct dates, the outcome of the run does
    not depend on the order in which the rows are given (the order in
    which the directory lists the files). *)
Theorem X21_ordem_dos_arquivos (dados dados' : list Linha) :
  Permutation dados dados' -> NoDup (map Data dados) ->
  tabelas dados = tabelas dados'.
Proof.
  intros Hp Hn.
  rewrite (tabelas_sort_values dados), (tabelas_sort_values dados').
  rewrite (sort_values_Permutation_igual Hp Hn). reflexivity.
Qed.

Lemma X21_ordem_dos_arquivos_witness :
  tabelas [linha 3 0.5; linha 1 0.5; linha 2 0.75]
  = tabelas [linha 1 0.5; linha 3 0.5; linha 2 0.75].
Proof.
  apply X21_ordem_dos_arquivos.
  - apply perm_swap.
  - repeat constructor; simpl; intuition discriminate.
Defined.

End OrdemDaEntrada.
